(** * deepequalexplained: deep equality that says where two values differ

    A shallow embedding of [deepequalexplained.go]: the recursive walker
    [deepValueEqual] and the entry point [DeepEqualExplained], over a model
    of the part of Go's [reflect] and [fmt] packages the walker calls. *)

From Stdlib Require Import ZArith Bool List Permutation HexadecimalString Ascii.
From stdpp Require Import gmap strings list pretty.

Local Open Scope string_scope.
Local Open Scope Z_scope.

(** ** The reflect package, as far as the walker sees it *)

Module reflect.

(** [reflect.Kind], in the order of the Go declaration. *)
Inductive Kind :=
| Invalid
| Bool
| Int | Int8 | Int16 | Int32 | Int64
| Uint | Uint8 | Uint16 | Uint32 | Uint64 | Uintptr
| Float32 | Float64
| Complex64 | Complex128
| Array | Chan | Func | Interface | Map | Ptr | Slice | String | Struct
| UnsafePointer.

#[global] Instance Kind_eq_dec : EqDecision Kind.
Proof. solve_decision. Defined.

(** A [reflect.Type]: a type descriptor.  Go compares descriptors by
    identity; here two descriptors are the same type when they are equal.
    [Name] is empty for a type that is not a defined type ([[]int],
    [map[string]int], [*T], ...), as [Type.Name()] returns it;
    [TypeString] is what [Type.String()] shows. *)
Record rtype := mkType { Name : string; TypeString : string }.

#[global] Instance rtype_eq_dec : EqDecision rtype.
Proof. solve_decision. Defined.

#[global] Instance rtype_countable : Countable rtype.
Proof.
  refine (inj_countable' (fun t => (Name t, TypeString t))
                         (fun p => mkType p.1 p.2) _).
  by intros [].
Defined.

(** An address ([uintptr], [unsafe.Pointer]); 0 is nil. *)
Abbreviation addr := Z.

(** The integer kinds and the two float and complex widths. *)
Inductive intKind :=
| KInt | KInt8 | KInt16 | KInt32 | KInt64
| KUint | KUint8 | KUint16 | KUint32 | KUint64 | KUintptr.

Inductive width := W32 | W64.

(** A floating-point number as the walker can tell them apart: NaN, the
    infinities, the two zeros, and any other finite number, which is named
    by the digits [strconv] prints for it (the shortest text that reads
    back as the same number). *)
Inductive float :=
| FNaN
| FInf (neg : bool)
| FZero (neg : bool)
| FFin (digits : string).

(** The values of the kinds the walker's [switch] leaves to [default]. *)
Inductive scalar :=
| SBool (b : bool)
| SInt (k : intKind) (n : Z)
| SFloat (w : width) (f : float)
| SComplex (w : width) (re im : float)
| SString (s : string)
| SChan (p : addr)
| SUnsafePointer (p : addr).

#[global] Instance intKind_eq_dec : EqDecision intKind.
Proof. solve_decision. Defined.
#[global] Instance width_eq_dec : EqDecision width.
Proof. solve_decision. Defined.
#[global] Instance float_eq_dec : EqDecision float.
Proof. solve_decision. Defined.
#[global] Instance scalar_eq_dec : EqDecision scalar.
Proof. solve_decision. Defined.

(** The flag of a [reflect.Value], as far as it shows: the two read-only
    bits, which a value gets when it is reached through an unexported
    struct field ([flagStickyRO]) or through an unexported embedded one
    ([flagEmbedRO]) and which decide [CanInterface], and the address of
    the value when it is addressable ([flagAddr], [CanAddr],
    [UnsafeAddr]). *)
Record flag := mkFlag {
  flagStickyRO : bool;
  flagEmbedRO : bool;
  flagAddr : option addr
}.

#[global] Instance flag_eq_dec : EqDecision flag.
Proof. solve_decision. Defined.

(** The flag of a value that is not read-only: not addressable, and at
    an address. *)
Definition plain : flag := mkFlag false false None.
Definition stored (a : addr) : flag := mkFlag false false (Some a).

(** A [reflect.Value].  [Zero] is the zero Value ([IsValid] is false).
    Otherwise a Value has its type, its flag and its contents.  Arrays,
    structs and interfaces hold their parts; pointers, slices, maps and
    funcs hold the address of storage that lives in the heap.  A struct
    lists each field with the name [Type().Field(i).Name] gives it.

    A part held in a container carries in its flag what belongs to it as
    a part: the address it has when the container is addressable and, for
    a struct field, the read-only bit of an unexported field.  The flag
    of the Value that [reflect] hands out for the part is made from it
    and from the flag of the container ([Index], [Field], [Elem],
    [MapIndex]). *)
Inductive Value :=
| Zero
| Val (typ : rtype) (fl : flag) (d : data)
with data :=
| DScalar (s : scalar)
| DArray (elems : list Value)
| DSlice (p : addr) (len : nat)
| DStruct (fields : list (string * Value))
| DIface (elem : Value)
| DPtr (p : addr)
| DMap (p : addr)
| DFunc (p : addr).

(** The heap: what a pointer points to, the backing array of a slice (from
    the slice's data pointer on), and the entries of a map, keyed by
    scalars.  A part stored in the heap carries the address it has there.

    With the heap comes the method table of the program: for a type
    whose method set has [Format], [Error] or [String], what that method
    prints for a value of the type, which is what [%v] prints for it.
    The method is taken to be a function of the value. *)
Record Heap := mkHeap {
  cells : gmap Z Value;
  arrays : gmap Z (list Value);
  tables : gmap Z (list (rtype * scalar * Value));
  methods : rtype -> option (scalar -> string)
}.

Definition kindOfInt (k : intKind) : Kind :=
  match k with
  | KInt => Int | KInt8 => Int8 | KInt16 => Int16 | KInt32 => Int32
  | KInt64 => Int64
  | KUint => Uint | KUint8 => Uint8 | KUint16 => Uint16 | KUint32 => Uint32
  | KUint64 => Uint64 | KUintptr => Uintptr
  end.

Definition kindOfScalar (s : scalar) : Kind :=
  match s with
  | SBool _ => Bool
  | SInt k _ => kindOfInt k
  | SFloat W32 _ => Float32
  | SFloat W64 _ => Float64
  | SComplex W32 _ _ => Complex64
  | SComplex W64 _ _ => Complex128
  | SString _ => String
  | SChan _ => Chan
  | SUnsafePointer _ => UnsafePointer
  end.

Definition IsValid (v : Value) : bool :=
  match v with Zero => false | Val _ _ _ => true end.

Definition KindOf (v : Value) : Kind :=
  match v with
  | Zero => Invalid
  | Val _ _ d =>
      match d with
      | DScalar s => kindOfScalar s
      | DArray _ => Array
      | DSlice _ _ => Slice
      | DStruct _ => Struct
      | DIface _ => Interface
      | DPtr _ => Ptr
      | DMap _ => Map
      | DFunc _ => Func
      end
  end.

Definition flagOf (v : Value) : flag :=
  match v with Zero => plain | Val _ fl _ => fl end.

Definition CanAddr (v : Value) : bool :=
  match flagAddr (flagOf v) with Some _ => true | None => false end.

(** [v.flag.ro()]: read-only, whichever bit says so. *)
Definition ro (fl : flag) : bool := flagStickyRO fl || flagEmbedRO fl.

(** [v.CanInterface()]: false for a value reached through an unexported
    field. *)
Definition CanInterface (v : Value) : bool :=
  match v with Zero => false | Val _ fl _ => negb (ro fl) end.

Definition setFlag (fl : flag) (v : Value) : Value :=
  match v with Zero => Zero | Val t _ d => Val t fl d end.

(** A copy of a value: not addressable and not read-only. *)
Definition copy (v : Value) : Value := setFlag plain v.

(** A value without its address. *)
Definition unaddressed (v : Value) : Value :=
  setFlag (mkFlag (flagStickyRO (flagOf v)) (flagEmbedRO (flagOf v)) None) v.

(** The address of a part of [whole]: the one the part carries when
    [whole] is addressable. *)
Definition partAddr (whole v : Value) : option addr :=
  if CanAddr whole then flagAddr (flagOf v) else None.

(** An element of an array: read-only when the array is. *)
Definition part (whole v : Value) : Value :=
  setFlag (mkFlag (ro (flagOf whole)) false (partAddr whole v)) v.

(** A field of a struct: it keeps the sticky bit of the struct and gets
    the bit of its own when it is unexported. *)
Definition fieldPart (whole v : Value) : Value :=
  setFlag (mkFlag (flagStickyRO (flagOf whole) || flagStickyRO (flagOf v))
                  (flagEmbedRO (flagOf v)) (partAddr whole v)) v.

(** An element of a slice is always addressable, at the address it has
    in the backing array. *)
Definition slicePart (whole v : Value) : Value :=
  setFlag (mkFlag (ro (flagOf whole)) false (flagAddr (flagOf v))) v.

(** The variable at address [p]. *)
Definition at_addr (p : addr) (v : Value) : Value := setFlag (stored p) v.

(** What the pointer [ptr] points to, at [p]: it keeps the read-only
    bits of the pointer. *)
Definition target (ptr : Value) (p : addr) (v : Value) : Value :=
  setFlag (mkFlag (flagStickyRO (flagOf ptr)) (flagEmbedRO (flagOf ptr)) (Some p)) v.

(** [reflect.ValueOf(x)]: the value an [interface{}] holds, never
    addressable and never read-only; the zero Value for a nil
    interface. *)
Definition ValueOf (x : Value) : Value := copy x.

(** The methods of [Value] the walker calls.  A method that panics in Go
    (called on the zero Value, on a Value of the wrong kind, or with an
    index out of range) returns [None]. *)

Definition TypeOf (v : Value) : option rtype :=
  match v with Zero => None | Val t _ _ => Some t end.

Definition UnsafeAddr (v : Value) : option addr := flagAddr (flagOf v).

Definition Pointer (v : Value) : option addr :=
  match v with
  | Val _ _ (DPtr p) | Val _ _ (DMap p) | Val _ _ (DFunc p)
  | Val _ _ (DSlice p _)
  | Val _ _ (DScalar (SChan p)) | Val _ _ (DScalar (SUnsafePointer p)) =>
      Some p
  | _ => None
  end.

Definition IsNil (v : Value) : option bool :=
  match v with
  | Val _ _ (DIface e) => Some (negb (IsValid e))
  | Val _ _ (DPtr p) | Val _ _ (DMap p) | Val _ _ (DFunc p)
  | Val _ _ (DSlice p _)
  | Val _ _ (DScalar (SChan p)) | Val _ _ (DScalar (SUnsafePointer p)) =>
      Some (p =? 0)
  | _ => None
  end.

Definition Len (h : Heap) (v : Value) : option nat :=
  match v with
  | Val _ _ (DArray elems) => Some (length elems)
  | Val _ _ (DSlice _ n) => Some n
  | Val _ _ (DMap p) =>
      if p =? 0 then Some 0%nat else length <$> tables h !! p
  | Val _ _ (DScalar (SString s)) => Some (String.length s)
  | _ => None
  end.

Definition Index (h : Heap) (v : Value) (i : nat) : option Value :=
  match v with
  | Val _ _ (DArray elems) => part v <$> elems !! i
  | Val _ _ (DSlice p n) =>
      if (i <? n)%nat
      then slicePart v <$> (arrays h !! p ≫= (fun l => l !! i))
      else None
  | _ => None
  end.

Definition Elem (h : Heap) (v : Value) : option Value :=
  match v with
  | Val _ fl (DIface e) => Some (setFlag (mkFlag (ro fl) false None) e)
  | Val _ _ (DPtr p) =>
      if p =? 0 then Some Zero else target v p <$> cells h !! p
  | _ => None
  end.

Definition NumField (v : Value) : option nat :=
  match v with
  | Val _ _ (DStruct fields) => Some (length fields)
  | _ => None
  end.

Definition Field (v : Value) (i : nat) : option Value :=
  match v with
  | Val _ _ (DStruct fields) => (fun f => fieldPart v f.2) <$> fields !! i
  | _ => None
  end.

(** [v.Type().Field(i).Name] *)
Definition FieldName (v : Value) (i : nat) : option string :=
  match v with
  | Val _ _ (DStruct fields) => fst <$> fields !! i
  | _ => None
  end.

Definition Float (v : Value) : option float :=
  match v with
  | Val _ _ (DScalar (SFloat _ f)) => Some f
  | _ => None
  end.

(** Go's [==] on floats and on scalars of one type, which a map lookup
    uses: a NaN equals nothing, the two zeros are equal. *)
Definition floatEq (f g : float) : bool :=
  match f, g with
  | FInf a, FInf b => Bool.eqb a b
  | FZero _, FZero _ => true
  | FFin a, FFin b => bool_decide (a = b)
  | _, _ => false
  end.

Definition scalarEq (s t : scalar) : bool :=
  match s, t with
  | SBool a, SBool b => Bool.eqb a b
  | SInt _ a, SInt _ b => a =? b
  | SFloat _ f, SFloat _ g => floatEq f g
  | SComplex _ r i, SComplex _ r' i' => floatEq r r' && floatEq i i'
  | SString a, SString b => bool_decide (a = b)
  | SChan p, SChan q | SUnsafePointer p, SUnsafePointer q => p =? q
  | _, _ => false
  end.

Definition keyValue (fl : flag) (e : rtype * scalar * Value) : Value :=
  Val e.1.1 (mkFlag (ro fl) false None) (DScalar e.1.2).

(** [v.MapKeys()]: the keys, in the order [iter] puts them; Go leaves the
    order of a map's keys unspecified. *)
Definition MapKeys (iter : list Value -> list Value) (h : Heap) (v : Value)
  : option (list Value) :=
  match v with
  | Val _ fl (DMap p) =>
      if p =? 0 then Some []
      else (fun t => iter (keyValue fl <$> t)) <$> tables h !! p
  | _ => None
  end.

Definition lookupKey (s : scalar) (t : list (rtype * scalar * Value)) : Value :=
  match List.find (fun e => scalarEq s e.1.2) t with
  | Some e => e.2
  | None => Zero
  end.

(** [v.MapIndex(k)]: the zero Value when the key is not in the map;
    otherwise a copy of the entry, read-only when the map or the key
    is. *)
Definition MapIndex (h : Heap) (v k : Value) : option Value :=
  match v, k with
  | Val _ fl (DMap p), Val _ flk (DScalar s) =>
      if p =? 0 then Some Zero
      else (fun t => setFlag (mkFlag (ro fl || ro flk) false None) (lookupKey s t))
             <$> tables h !! p
  | _, _ => None
  end.

End reflect.

(** ** math and fmt *)

Module math.

Definition IsNaN (f : reflect.float) : bool :=
  match f with reflect.FNaN => true | _ => false end.

End math.

Module fmt.
Import reflect.

(** A float under [%v]. *)
Definition fmtFloat (f : float) : string :=
  match f with
  | FNaN => "NaN"
  | FInf false => "+Inf"
  | FInf true => "-Inf"
  | FZero false => "0"
  | FZero true => "-0"
  | FFin d => d
  end.

(** The imaginary part of a complex number always has its sign. *)
Definition fmtFloatPlus (f : float) : string :=
  match f with
  | FNaN => "+NaN"
  | FInf false => "+Inf"
  | FInf true => "-Inf"
  | FZero false => "+0"
  | FZero true => "-0"
  | FFin d => if String.prefix "-" d then d else "+" +:+ d
  end.

Definition fmtPointer (p : addr) : string :=
  if p =? 0 then "<nil>"
  else "0x" +:+ HexadecimalString.NilZero.string_of_uint (N.to_hex_uint (Z.to_N p)).

(** [printValue]: what [%v] prints for the scalar a Value holds when no
    method of its type takes over. *)
Definition printValue (s : scalar) : string :=
  match s with
  | SBool b => if b then "true" else "false"
  | SInt _ n => pretty n
  | SFloat _ f => fmtFloat f
  | SComplex _ re im => "(" +:+ fmtFloat re +:+ fmtFloatPlus im +:+ "i)"
  | SString s => s
  | SChan p | SUnsafePointer p => fmtPointer p
  end.

(** [handleMethods]: for an argument that is a [reflect.Value], fmt
    first takes the value out with [Interface()], when [CanInterface]
    allows it, and lets the [Format], [Error] or [String] method of its
    type print it, when the type has one. *)
Definition handleMethods (h : Heap) (v : Value) : option string :=
  match v with
  | Val t _ (DScalar s) =>
      if CanInterface v then (fun m => m s) <$> methods h t else None
  | _ => None
  end.

(** [Sprintf("%v", v)] for a Value of a scalar kind, the only kinds the
    walker prints (a leaf, or a map key). *)
Definition verb_v (h : Heap) (v : Value) : option string :=
  match v with
  | Val _ _ (DScalar s) => Some (default (printValue s) (handleMethods h v))
  | _ => None
  end.

(** The text of a scalar Value under [%v]. *)
Definition text (h : Heap) (v : Value) : string := default "" (verb_v h v).

(** [Sprintf("%T", v)] prints the Go type of its argument, and the
    walker's argument is a [reflect.Value]. *)
Definition verb_T (v : Value) : string := "reflect.Value".

End fmt.

(** ** The walker *)

Import reflect.

(** What a call comes to: it returns, it panics inside [reflect], or the
    model's fuel runs out before it returns. *)
Inductive result (A : Type) :=
| Done (x : A)
| Panic
| OutOfFuel.
Arguments Done {A} x.
Arguments Panic {A}.
Arguments OutOfFuel {A}.

#[global] Instance result_ret : MRet result := fun A x => Done x.
#[global] Instance result_bind : MBind result := fun A B f m =>
  match m with
  | Done x => f x
  | Panic => Panic
  | OutOfFuel => OutOfFuel
  end.

(** A [reflect] call that may panic. *)
Definition must {A} (o : option A) : result A :=
  match o with Some x => Done x | None => Panic end.

(** An [error]: [None] is nil. *)
Abbreviation error := (option string).

Definition Errorf (msg : string) : error := Some msg.

(** [fmt.Errorf(prefix + "%s", err.Error())] when [err != nil]. *)
Definition wrap (prefix : string) (err : error) : error :=
  (fun e => prefix +:+ e) <$> err.

Record visit := mkVisit { a1 : addr; a2 : addr; typ : rtype }.

#[global] Instance visit_eq_dec : EqDecision visit.
Proof. solve_decision. Defined.

#[global] Instance visit_countable : Countable visit.
Proof.
  refine (inj_countable' (fun v => (a1 v, a2 v, typ v))
                         (fun p => mkVisit p.1.1 p.1.2 p.2) _).
  by intros [].
Defined.

(** [map[visit]bool]; [visited[v]] is false for a key that is not there. *)
Abbreviation Visited := (gmap visit bool).

Definition seen (visited : Visited) (v : visit) : bool :=
  default false (visited !! v).

Definition hard (k : Kind) : bool :=
  match k with
  | Array | Map | Slice | Struct => true
  | _ => false
  end.

(** [fmt.Sprintf("%v", v)]; [None] for a Value the walker never prints. *)
Definition Sprint (h : Heap) (v : Value) : option string := fmt.verb_v h v.

(** [v.Kind() == reflect.Float64 && math.IsNaN(v.Float())] *)
Definition isNaN64 (v : Value) : result bool :=
  if bool_decide (KindOf v = Float64)
  then f ← must (Float v); Done (math.IsNaN f)
  else Done false.

(** A loop whose body returns an error: the first error ends the loop and
    is returned, and nil is returned when the loop runs to its end. *)
Fixpoint forEach {A} (body : A -> Visited -> result (error * Visited))
    (xs : list A) (visited : Visited) : result (error * Visited) :=
  match xs with
  | [] => Done (None, visited)
  | x :: xs =>
      '(err, visited) ← body x visited;
      match err with
      | Some _ => Done (err, visited)
      | None => forEach body xs visited
      end
  end.

(** The [default] case of the [switch]: two values that are neither
    containers, references nor funcs. *)
Definition leafCase (h : Heap) (v1 v2 : Value) (visited : Visited)
  : result (error * Visited) :=
  nan1 ← isNaN64 v1;
  if (nan1 : bool) then Done (Errorf " in x is NaN float", visited)
  else
  nan2 ← isNaN64 v2;
  if (nan2 : bool) then Done (Errorf " in y is NaN float", visited)
  else if bool_decide (fmt.verb_T v1 ≠ fmt.verb_T v2) then
    Done (Errorf (" have different types, where in x is " +:+ fmt.verb_T v1
                  +:+ " but in y is " +:+ fmt.verb_T v2), visited)
  else
  s1 ← must (Sprint h v1);
  s2 ← must (Sprint h v2);
  if bool_decide (s1 ≠ s2) then
    Done (Errorf (" are not equal, where in x is " +:+ s1
                  +:+ " but in y is " +:+ s2), visited)
  else Done (None, visited).

Section walker.

(** The order in which the runtime hands out the keys of a map. *)
Variable mapiter : list Value -> list Value.
Variable h : Heap.

(** The body of the loop over the keys of a map, for the key [k]; [rec]
    is the recursive call. *)
Definition mapEntry
    (rec : Value -> Value -> Visited -> Z -> result (error * Visited))
    (v1 v2 : Value) (depth : Z) (k : Value) (visited : Visited)
  : result (error * Visited) :=
  val1 ← must (MapIndex h v1 k);
  val2 ← must (MapIndex h v2 k);
  if negb (IsValid val1) then
    key ← must (Sprint h k);
    Done (Errorf ("[" +:+ key +:+ "] is invalid in x"), visited)
  else if negb (IsValid val2) then
    key ← must (Sprint h k);
    Done (Errorf ("[" +:+ key +:+ "] is invalid in y"), visited)
  else
    '(err, visited) ← rec val1 val2 visited (depth + 1);
    match err with
    | Some _ =>
        key ← must (Sprint h k);
        Done (wrap ("[" +:+ key +:+ "]") err, visited)
    | None => Done (None, visited)
    end.

(** The [switch v1.Kind()] of [deepValueEqual]; [rec] is the recursive
    call. *)
Definition kindSwitch
    (rec : Value -> Value -> Visited -> Z -> result (error * Visited))
    (v1 v2 : Value) (visited : Visited) (depth : Z)
  : result (error * Visited) :=
  match KindOf v1 with
  | Array =>
      n ← must (Len h v1);
      forEach (fun i visited =>
        x1 ← must (Index h v1 i);
        x2 ← must (Index h v2 i);
        '(err, visited) ← rec x1 x2 visited (depth + 1);
        Done (wrap ("[" +:+ pretty i +:+ "]") err, visited))
        (seq 0 n) visited
  | Slice =>
      nil1 ← must (IsNil v1);
      nil2 ← must (IsNil v2);
      if negb (Bool.eqb nil1 nil2) then
        if nil1
        then Done (Errorf " in x is nil but in y is not", visited)
        else Done (Errorf " in y is nil but in x is not", visited)
      else
      len1 ← must (Len h v1);
      len2 ← must (Len h v2);
      if negb (len1 =? len2)%nat then
        Done (Errorf " do not have the same length", visited)
      else
      p1 ← must (Pointer v1);
      p2 ← must (Pointer v2);
      if p1 =? p2 then Done (None, visited)
      else
      forEach (fun i visited =>
        x1 ← must (Index h v1 i);
        x2 ← must (Index h v2 i);
        '(err, visited) ← rec x1 x2 visited (depth + 1);
        Done (wrap ("[" +:+ pretty i +:+ "]") err, visited))
        (seq 0 len1) visited
  | Interface =>
      nil1 ← must (IsNil v1);
      nil2 ← must (IsNil v2);
      if nil1 || nil2 then
        if Bool.eqb nil1 nil2
        then Done (None, visited)
        else Done (Errorf " do not have the same interface", visited)
      else
      e1 ← must (Elem h v1);
      e2 ← must (Elem h v2);
      '(err, visited) ← rec e1 e2 visited (depth + 1);
      Done (wrap "(Interface)" err, visited)
  | Ptr =>
      p1 ← must (Pointer v1);
      p2 ← must (Pointer v2);
      if p1 =? p2 then Done (None, visited)
      else
      e1 ← must (Elem h v1);
      e2 ← must (Elem h v2);
      '(err, visited) ← rec e1 e2 visited (depth + 1);
      Done (wrap "(Ptr)" err, visited)
  | Struct =>
      n ← must (NumField v1);
      forEach (fun i visited =>
        f1 ← must (Field v1 i);
        f2 ← must (Field v2 i);
        '(err, visited) ← rec f1 f2 visited (depth + 1);
        match err with
        | Some _ =>
            name ← must (FieldName v1 i);
            Done (wrap ("." +:+ name) err, visited)
        | None => Done (None, visited)
        end)
        (seq 0 n) visited
  | Map =>
      nil1 ← must (IsNil v1);
      nil2 ← must (IsNil v2);
      if negb (Bool.eqb nil1 nil2) then
        if nil1
        then Done (Errorf " are not equal, where in x is nil but in y is not", visited)
        else Done (Errorf " are not equal, where in y is nil but in x is not", visited)
      else
      len1 ← must (Len h v1);
      len2 ← must (Len h v2);
      if negb (len1 =? len2)%nat then
        Done (Errorf (" do not have the same length, where in x is "
                      +:+ pretty len1 +:+ " but in y is " +:+ pretty len2),
              visited)
      else
      p1 ← must (Pointer v1);
      p2 ← must (Pointer v2);
      if p1 =? p2 then Done (None, visited)
      else
      keys ← must (MapKeys mapiter h v1);
      forEach (mapEntry rec v1 v2 depth) keys visited
  | Func =>
      nil1 ← must (IsNil v1);
      nil2 ← must (IsNil v2);
      if nil1 && nil2 then Done (None, visited)
      else Done (Errorf " has different func", visited)
  | _ => leafCase h v1 v2 visited
  end.

(** The key under which an addressable pair is remembered: the two
    addresses, the lower one first, and the type. *)
Definition visitKey (addr1 addr2 : addr) (t : rtype) : visit :=
  if addr1 >? addr2 then mkVisit addr2 addr1 t else mkVisit addr1 addr2 t.

Fixpoint deepValueEqual (fuel : nat) (v1 v2 : Value) (visited : Visited)
    (depth : Z) {struct fuel} : result (error * Visited) :=
  match fuel with
  | O => OutOfFuel
  | S fuel =>
      if negb (IsValid v1) || negb (IsValid v2) then
        if Bool.eqb (IsValid v1) (IsValid v2) then Done (None, visited)
        else if negb (IsValid v1)
        then Done (Errorf " in x is invalid but in y is not", visited)
        else Done (Errorf " in y is invalid but in x is not", visited)
      else
      t1 ← must (TypeOf v1);
      t2 ← must (TypeOf v2);
      if bool_decide (t1 ≠ t2) then
        Done (Errorf (" has different types, where in x is " +:+ Name t1
                      +:+ " but in y is " +:+ Name t2), visited)
      else
      if CanAddr v1 && CanAddr v2 && hard (KindOf v1) then
        addr1 ← must (UnsafeAddr v1);
        addr2 ← must (UnsafeAddr v2);
        let v := visitKey addr1 addr2 t1 in
        (* Short circuit if references are already seen. *)
        if seen visited v then Done (None, visited)
        else
        (* Remember for later. *)
        kindSwitch (deepValueEqual fuel) v1 v2 (<[v := true]> visited) depth
      else
      kindSwitch (deepValueEqual fuel) v1 v2 visited depth
  end.

Definition DeepEqualExplained (fuel : nat) (x y : Value) : result error :=
  if negb (IsValid x) || negb (IsValid y) then
    if negb (IsValid x) && negb (IsValid y) then Done None
    else if negb (IsValid x) then Done (Errorf "x is nil while y is not")
    else Done (Errorf "y is nil while x is not")
  else
  let v1 := ValueOf x in
  let v2 := ValueOf y in
  t1 ← must (TypeOf v1);
  t2 ← must (TypeOf v2);
  if bool_decide (t1 ≠ t2) then
    Done (Errorf ("values have different types, where in x is " +:+ Name t1
                  +:+ " but in y is " +:+ Name t2))
  else
  '(err, visited) ← deepValueEqual fuel v1 v2 ∅ 0;
  match err with
  | Some e => Done (Errorf ("values" +:+ e))
  | None => Done None
  end.

End walker.

(** ** Running the model

    [deepValueEqual] recurses for as long as Go does, so the model takes
    fuel.  A call returns [r] when every large enough amount of fuel gives
    [r], and it never returns when no amount of fuel is enough. *)

Definition returns {A} (run : nat -> result A) (r : A) : Prop :=
  exists n, forall fuel, (n <= fuel)%nat -> run fuel = Done r.

Definition neverReturns {A} (run : nat -> result A) : Prop :=
  forall fuel, run fuel = OutOfFuel.

(** A call comes to an end: from some amount of fuel on it always comes
    to the same thing, a result or a panic. *)
Definition terminates {A} (run : nat -> result A) : Prop :=
  exists n r, r ≠ OutOfFuel /\ forall fuel, (n <= fuel)%nat -> run fuel = r.

(** ** Values used in the examples *)

Module examples.

(** A program none of whose types has a formatting method. *)
Definition noMethods : rtype -> option (scalar -> string) := fun _ => None.

Definition emptyHeap : Heap := mkHeap ∅ ∅ ∅ noMethods.

Definition tInt := mkType "int" "int".
Definition tString := mkType "string" "string".
Definition tFloat32 := mkType "float32" "float32".
Definition tFloat64 := mkType "float64" "float64".

Definition int (n : Z) : Value := Val tInt plain (DScalar (SInt KInt n)).
Definition str (s : string) : Value := Val tString plain (DScalar (SString s)).
Definition nan32 : Value := Val tFloat32 plain (DScalar (SFloat W32 FNaN)).
Definition nan64 : Value := Val tFloat64 plain (DScalar (SFloat W64 FNaN)).

(** [[]int{1}] and [[]int{1, 2}] *)
Definition tInts := mkType "" "[]int".
Definition elemAt (a : addr) (n : Z) : Value :=
  Val tInt (stored a) (DScalar (SInt KInt n)).
Definition sliceHeap : Heap :=
  mkHeap ∅ (<[64 := [elemAt 64 1]]> (<[128 := [elemAt 128 1; elemAt 136 2]]> ∅)) ∅
    noMethods.
Definition ints1 : Value := Val tInts plain (DSlice 64 1).
Definition ints2 : Value := Val tInts plain (DSlice 128 2).

(** [map[string]int{"a": 1, "b": 2}] and [map[string]int{"a": 3, "b": 4}],
    the nil map and [map[string]int{"k": 1}] *)
Definition tDict := mkType "" "map[string]int".
Definition mapHeap : Heap :=
  mkHeap ∅ ∅
    (<[16 := [(tString, SString "a", int 1); (tString, SString "b", int 2)]]>
    (<[32 := [(tString, SString "a", int 3); (tString, SString "b", int 4)]]>
    (<[48 := [(tString, SString "k", int 1)]]>
    (<[80 := [(tString, SString "k", int 1)]]>
    (<[96 := []]> ∅)))))
    noMethods.
Definition dict (p : addr) : Value := Val tDict plain (DMap p).

(** [type M map[string]M], with [m["me"] = m] for the map at 16 and for the
    map at 32 *)
Definition tM := mkType "M" "main.M".
Definition loopHeap : Heap :=
  mkHeap ∅ ∅
    (<[16 := [(tString, SString "me", Val tM plain (DMap 16))]]>
    (<[32 := [(tString, SString "me", Val tM plain (DMap 32))]]> ∅))
    noMethods.
Definition loopMap (p : addr) : Value := Val tM plain (DMap p).

(** [type Node struct { Next *Node }], with [n.Next = n] for the node at
    [a] *)
Definition tNode := mkType "Node" "main.Node".
Definition tNodePtr := mkType "" "*main.Node".
Definition nodePtr (a : addr) : Value := Val tNodePtr plain (DPtr a).
Definition nodeFields (a : addr) : list (string * Value) :=
  [("Next", Val tNodePtr (stored a) (DPtr a))].
Definition node (a : addr) : Value := Val tNode (stored a) (DStruct (nodeFields a)).
Definition nodeHeap : Heap :=
  mkHeap (<[256 := node 256]> (<[512 := node 512]> ∅)) ∅ ∅
    noMethods.

(** [[1]float64{NaN}] and a func that is not nil *)
Definition tFloats1 := mkType "" "[1]float64".
Definition nanArray : Value := Val tFloats1 plain (DArray [nan64]).
Definition tFunc := mkType "" "func()".
Definition someFunc : Value := Val tFunc plain (DFunc 4096).

(** [type Node struct { Next *Node }]: two nodes that point at each
    other, at 256 and 512, and two more, at 1024 and 2048. *)
Definition ringNode (a next : addr) : Value :=
  Val tNode (stored a) (DStruct [("Next", Val tNodePtr (stored a) (DPtr next))]).
Definition ringHeap : Heap :=
  mkHeap (<[256 := ringNode 256 512]> (<[512 := ringNode 512 256]>
         (<[1024 := ringNode 1024 2048]> (<[2048 := ringNode 2048 1024]> ∅))))
         ∅ ∅ noMethods.

(** The pairs a comparison of the two rings comes to. *)
Definition ringPairs : list (Value * Value) :=
  [ (nodePtr 256, nodePtr 1024);
    (ringNode 256 512, ringNode 1024 2048);
    (Val tNodePtr (stored 256) (DPtr 512), Val tNodePtr (stored 1024) (DPtr 2048));
    (ringNode 512 256, ringNode 2048 1024);
    (Val tNodePtr (stored 512) (DPtr 256), Val tNodePtr (stored 2048) (DPtr 1024)) ].

Definition ringKeys : list visit :=
  [mkVisit 256 1024 tNode; mkVisit 512 2048 tNode].

(** [map[string]int{"a": 1, "b": 2}] and [map[string]int{"a": 1, "b": 4}],
    alone in the heap, and what the comparison of their entries comes
    to: the entries under [b] differ. *)
Definition twoHeap : Heap :=
  mkHeap ∅ ∅
    (<[16 := [(tString, SString "a", int 1); (tString, SString "b", int 2)]]>
    (<[32 := [(tString, SString "a", int 1); (tString, SString "b", int 4)]]> ∅))
    noMethods.
Definition onlyB (k : Value) : error :=
  if bool_decide (fmt.text twoHeap k = "b")
  then Some "[b] are not equal, where in x is 2 but in y is 4"
  else None.

End examples.

(** ** Notions the properties are stated with *)

(** A NaN of kind [Float64]. *)
Definition isNaN64Scalar (s : scalar) : bool :=
  match s with SFloat W64 FNaN => true | _ => false end.

(** The key of the cycle detector for a pair: both values addressable and
    of a [hard] kind. *)
Definition cycleKey (v1 v2 : Value) : option visit :=
  match v1, v2 with
  | Val t fl1 _, Val _ fl2 _ =>
      match flagAddr fl1, flagAddr fl2 with
      | Some addr1, Some addr2 =>
          if hard (KindOf v1) then Some (visitKey addr1 addr2 t) else None
      | _, _ => None
      end
  | _, _ => None
  end.

(** [visited'] remembers every pair that [visited] does. *)
Definition grows (visited visited' : Visited) : Prop :=
  forall k, seen visited k = true -> seen visited' k = true.

(** What makes a value equal to itself for the walker.  Comparing a value
    with itself never follows a pointer, a slice or a map, which are equal
    to themselves by their address; what is left are the parts held in
    place: no [Float64] NaN and no func that is not nil among them, and
    every map is one of the heap. *)
Fixpoint selfEqual (h : Heap) (v : Value) : bool :=
  match v with
  | Zero => true
  | Val _ _ d =>
      match d with
      | DScalar s => negb (isNaN64Scalar s)
      | DArray elems => forallb (selfEqual h) elems
      | DStruct fields => forallb (fun f => selfEqual h f.2) fields
      | DIface e => selfEqual h e
      | DFunc p => p =? 0
      | DMap p => (p =? 0) || bool_decide (is_Some (tables h !! p))
      | DSlice _ _ | DPtr _ => true
      end
  end.

(** How deep arrays, structs and interfaces are nested in a value. *)
Fixpoint nesting (v : Value) : nat :=
  match v with
  | Zero => 0
  | Val _ _ d =>
      match d with
      | DArray elems => S (list_max (map nesting elems))
      | DStruct fields => S (list_max (map (fun f => nesting f.2) fields))
      | DIface e => S (nesting e)
      | _ => 0
      end
  end.

(** Two flags with the same read-only bits. *)
Definition sameRO (fl1 fl2 : flag) : bool :=
  Bool.eqb (flagStickyRO fl1) (flagStickyRO fl2)
  && Bool.eqb (flagEmbedRO fl1) (flagEmbedRO fl2).

(** Two fields of two records, the one at [a] and the one at [b], agree
    when they are the same scalar of the same type, not a [Float64] NaN,
    or when they are pointers of one type, each back to its own record.
    The two records are of one struct type, so a field is exported in
    both or in neither. *)
Definition fieldAgrees (a b : addr) (f1 f2 : string * Value) : bool :=
  match f1.2, f2.2 with
  | Val t1 fl1 (DScalar s1), Val t2 fl2 (DScalar s2) =>
      bool_decide (t1 = t2) && sameRO fl1 fl2 && bool_decide (s1 = s2)
      && negb (isNaN64Scalar s1)
  | Val t1 fl1 (DPtr p1), Val t2 fl2 (DPtr p2) =>
      bool_decide (t1 = t2) && sameRO fl1 fl2 && (p1 =? a) && (p2 =? b)
  | _, _ => false
  end.

Fixpoint fieldsAgree (a b : addr) (l1 l2 : list (string * Value)) : bool :=
  match l1, l2 with
  | [], [] => true
  | f1 :: l1, f2 :: l2 => fieldAgrees a b f1 f2 && fieldsAgree a b l1 l2
  | _, _ => false
  end.

(** The pairs of elements at the indices below [n]. *)
Definition indexPairs (h : Heap) (v1 v2 : Value) (n : nat) : list (Value * Value) :=
  omap (fun i => x1 ← Index h v1 i; x2 ← Index h v2 i; Some (x1, x2)) (seq 0 n).

(** The pairs the walker can call itself on from a call on [v1] and
    [v2]: none when a guard or a shortcut returns first, and otherwise
    the pairs of elements, of fields, of map entries under the keys of
    [v1], or the two values a pointer or an interface leads to.  A loop
    that meets an error leaves the pairs after it alone. *)
Definition children (mapiter : list Value -> list Value) (h : Heap)
    (v1 v2 : Value) : list (Value * Value) :=
  if negb (IsValid v1) || negb (IsValid v2) then []
  else if bool_decide (TypeOf v1 ≠ TypeOf v2) then []
  else
  match KindOf v1 with
  | Array => default [] (indexPairs h v1 v2 <$> Len h v1)
  | Slice =>
      match IsNil v1, IsNil v2, Len h v1, Len h v2, Pointer v1, Pointer v2 with
      | Some nil1, Some nil2, Some len1, Some len2, Some p1, Some p2 =>
          if negb (Bool.eqb nil1 nil2) || negb (len1 =? len2)%nat || (p1 =? p2)
          then []
          else indexPairs h v1 v2 len1
      | _, _, _, _, _, _ => []
      end
  | Interface =>
      match IsNil v1, IsNil v2, Elem h v1, Elem h v2 with
      | Some false, Some false, Some e1, Some e2 => [(e1, e2)]
      | _, _, _, _ => []
      end
  | Ptr =>
      match Pointer v1, Pointer v2, Elem h v1, Elem h v2 with
      | Some p1, Some p2, Some e1, Some e2 =>
          if p1 =? p2 then [] else [(e1, e2)]
      | _, _, _, _ => []
      end
  | Struct =>
      default []
        ((fun n => omap (fun i => f1 ← Field v1 i; f2 ← Field v2 i; Some (f1, f2))
                     (seq 0 n)) <$> NumField v1)
  | Map =>
      match IsNil v1, IsNil v2, Len h v1, Len h v2, Pointer v1, Pointer v2,
            MapKeys mapiter h v1 with
      | Some nil1, Some nil2, Some len1, Some len2, Some p1, Some p2, Some keys =>
          if negb (Bool.eqb nil1 nil2) || negb (len1 =? len2)%nat || (p1 =? p2)
          then []
          else omap (fun k =>
                 val1 ← MapIndex h v1 k; val2 ← MapIndex h v2 k;
                 if IsValid val1 && IsValid val2 then Some (val1, val2) else None)
                 keys
      | _, _, _, _, _, _, _ => []
      end
  | _ => []
  end.

(** The remembered keys that are still missing from [visited], among
    those of [keys]. *)
Definition unseen (keys : list visit) (visited : Visited) : nat :=
  length (List.filter (fun k => negb (seen visited k)) keys).

(** What shows that the walker comes to an end on the pairs of [reach]:
    [reach] holds of every pair a call on one of its pairs goes on to;
    the keys of its addressable pairs of a [hard] kind are all in [keys];
    and from a pair without a key to a pair without a key [rank], which
    is at most [bound], goes down.  So every cycle among the pairs of
    [reach] goes through a pair that the cycle detector remembers. *)
Record certificate (mapiter : list Value -> list Value) (h : Heap)
    (reach : Value -> Value -> Prop) (keys : list visit)
    (rank : Value -> Value -> nat) (bound : nat) : Prop := {
  reach_children : forall v1 v2 x y,
    reach v1 v2 -> In (x, y) (children mapiter h v1 v2) -> reach x y;
  reach_keys : forall v1 v2 k,
    reach v1 v2 -> cycleKey v1 v2 = Some k -> In k keys;
  rank_bound : forall v1 v2, reach v1 v2 -> (rank v1 v2 <= bound)%nat;
  rank_down : forall v1 v2 x y,
    reach v1 v2 -> cycleKey v1 v2 = None ->
    In (x, y) (children mapiter h v1 v2) -> cycleKey x y = None ->
    (rank x y < rank v1 v2)%nat
}.

(** An order of the keys: what the runtime hands out is the keys of the
    map, each once, in some order. *)
Definition permutes (iter : list Value -> list Value) : Prop :=
  forall l, Permutation (iter l) l.

(** The error of the first key, in the order of [keys], for which [out]
    has one. *)
Fixpoint firstError (out : Value -> error) (keys : list Value) : error :=
  match keys with
  | [] => None
  | k :: keys =>
      match out k with
      | Some e => Some e
      | None => firstError out keys
      end
  end.

(** [v] is the key [k]. *)
Definition isKey (k v : Value) : bool :=
  match k, v with
  | Val t1 fl1 (DScalar s1), Val t2 fl2 (DScalar s2) =>
      bool_decide (t1 = t2) && bool_decide (fl1 = fl2) && bool_decide (s1 = s2)
  | _, _ => false
  end.

(** The order that hands out the key [k] first.  *)
Definition keyFirst (k : Value) (l : list Value) : list Value :=
  (List.filter (isKey k) l ++ List.filter (fun v => negb (isKey k v)) l)%list.

(** ** Properties *)

Section properties.

Variable mapiter : list Value -> list Value.
Variable h : Heap.

Lemma bool_decide_ne_refl {A} `{EqDecision A} (x : A) :
  bool_decide (x ≠ x) = false.
Proof. by apply bool_decide_eq_false_2; intros H; apply H. Qed.

Lemma kindOfScalar_not_hard s : hard (kindOfScalar s) = false.
Proof. by destruct s as [|[]|[]|[]| | |]. Qed.

(** The walker on two scalars of one type comes to the [default] case. *)
Lemma deepValueEqual_scalar fuel t fa1 fa2 s1 s2 visited depth
    (rec := deepValueEqual mapiter h fuel) :
  deepValueEqual mapiter h (S fuel) (Val t fa1 (DScalar s1))
    (Val t fa2 (DScalar s2)) visited depth
  = kindSwitch mapiter h rec (Val t fa1 (DScalar s1)) (Val t fa2 (DScalar s2))
      visited depth.
Proof.
  subst rec. cbn [deepValueEqual IsValid negb orb TypeOf must mbind result_bind].
  rewrite bool_decide_ne_refl.
  cbn [KindOf]. rewrite kindOfScalar_not_hard, andb_false_r. done.
Qed.


Lemma isNaN64_scalar t fa s :
  isNaN64 (Val t fa (DScalar s)) = Done (isNaN64Scalar s).
Proof. by destruct s as [|[]|[] []|[]| | |]. Qed.

Lemma kindSwitch_scalar rec t fa s v2 visited depth :
  kindSwitch mapiter h rec (Val t fa (DScalar s)) v2 visited depth
  = leafCase h (Val t fa (DScalar s)) v2 visited.
Proof. by destruct s as [|[]|[]|[]| | |]. Qed.

(** What [leafCase] comes to on two scalars. *)
Lemma leafCase_scalar t1 t2 fa1 fa2 s1 s2 visited
    (v1 := Val t1 fa1 (DScalar s1)) (v2 := Val t2 fa2 (DScalar s2)) :
  leafCase h v1 v2 visited
  = if isNaN64Scalar s1 then Done (Errorf " in x is NaN float", visited)
    else if isNaN64Scalar s2 then Done (Errorf " in y is NaN float", visited)
    else if bool_decide (fmt.text h v1 ≠ fmt.text h v2)
    then Done (Errorf (" are not equal, where in x is " +:+ fmt.text h v1
                       +:+ " but in y is " +:+ fmt.text h v2), visited)
    else Done (None, visited).
Proof.
  subst v1 v2. unfold leafCase. rewrite !isNaN64_scalar.
  cbn [mbind result_bind].
  destruct (isNaN64Scalar s1); [done|].
  destruct (isNaN64Scalar s2); [done|].
  unfold fmt.verb_T. rewrite bool_decide_ne_refl. done.
Qed.


(** *** The entry guard *)

(** C4: two nil inputs are equal; when exactly one input is nil the error
    says which one; when both are present and their types differ the error
    gives both type names.  None of this needs a call of the walker: it
    holds with no fuel at all. *)
Theorem entry_guard (fuel : nat) :
  DeepEqualExplained mapiter h fuel Zero Zero = Done None
  /\ (forall t fa d,
        DeepEqualExplained mapiter h fuel Zero (Val t fa d)
        = Done (Errorf "x is nil while y is not"))
  /\ (forall t fa d,
        DeepEqualExplained mapiter h fuel (Val t fa d) Zero
        = Done (Errorf "y is nil while x is not"))
  /\ (forall t1 fa1 d1 t2 fa2 d2,
        t1 ≠ t2 ->
        DeepEqualExplained mapiter h fuel (Val t1 fa1 d1) (Val t2 fa2 d2)
        = Done (Errorf ("values have different types, where in x is "
                        +:+ Name t1 +:+ " but in y is " +:+ Name t2))).
Proof.
  repeat split; try done.
  intros t1 fa1 d1 t2 fa2 d2 Hne.
  unfold DeepEqualExplained.
  cbn [IsValid negb orb ValueOf copy setFlag TypeOf must mbind result_bind].
  by rewrite bool_decide_eq_true_2.
Qed.

(** *** Leaves *)

(** The walker's type guard: two values of different types are reported
    with both type names, whatever they hold. *)
Lemma type_guard fuel t1 fa1 d1 t2 fa2 d2 visited depth :
  t1 ≠ t2 ->
  deepValueEqual mapiter h (S fuel) (Val t1 fa1 d1) (Val t2 fa2 d2) visited depth
  = Done (Errorf (" has different types, where in x is " +:+ Name t1
                  +:+ " but in y is " +:+ Name t2), visited).
Proof.
  intros Hne.
  cbn [deepValueEqual IsValid negb orb TypeOf must mbind result_bind].
  by rewrite bool_decide_eq_true_2.
Qed.


(** C1, amended: when either of two leaves of one type is a [Float64] NaN,
    the walker reports a NaN, of [x] when the first one is a NaN and of
    [y] otherwise, and so does the entry point; the result is never
    equal. *)
Theorem nan64_divergence fuel t fa1 fa2 s1 s2 visited depth :
  isNaN64Scalar s1 || isNaN64Scalar s2 = true ->
  deepValueEqual mapiter h (S fuel) (Val t fa1 (DScalar s1))
    (Val t fa2 (DScalar s2)) visited depth
  = Done (Errorf (if isNaN64Scalar s1 then " in x is NaN float"
                  else " in y is NaN float"), visited)
  /\ DeepEqualExplained mapiter h (S fuel) (Val t fa1 (DScalar s1))
       (Val t fa2 (DScalar s2))
     = Done (Errorf (if isNaN64Scalar s1 then "values in x is NaN float"
                     else "values in y is NaN float")).
Proof.
  intros Hnan.
  assert (Hw : forall fa1 fa2 visited depth,
    deepValueEqual mapiter h (S fuel) (Val t fa1 (DScalar s1))
      (Val t fa2 (DScalar s2)) visited depth
    = Done (Errorf (if isNaN64Scalar s1 then " in x is NaN float"
                    else " in y is NaN float"), visited)).
  { intros. rewrite deepValueEqual_scalar, kindSwitch_scalar, leafCase_scalar.
    destruct (isNaN64Scalar s1); [done|].
    by rewrite (orb_false_l _) in Hnan; rewrite Hnan. }
  split; [apply Hw|].
  unfold DeepEqualExplained.
  cbn [IsValid negb orb ValueOf copy setFlag TypeOf must mbind result_bind].
  rewrite bool_decide_ne_refl, Hw. cbn [mbind result_bind].
  by destruct (isNaN64Scalar s1).
Qed.


(** *** The cycle detector *)

Lemma visitKey_sym addr1 addr2 t : visitKey addr1 addr2 t = visitKey addr2 addr1 t.
Proof.
  unfold visitKey.
  destruct (Z.gtb_spec addr1 addr2), (Z.gtb_spec addr2 addr1); try done; try lia.
  by replace addr2 with addr1 by lia.
Qed.

Lemma seen_insert visited k : seen (<[k := true]> visited) k = true.
Proof. unfold seen. by rewrite lookup_insert_eq. Qed.

Lemma grows_refl visited : grows visited visited.
Proof. by intros k. Qed.

Lemma grows_trans v1 v2 v3 : grows v1 v2 -> grows v2 v3 -> grows v1 v3.
Proof. intros H12 H23 k Hk. by apply H23, H12. Qed.

Lemma grows_insert visited k : grows visited (<[k := true]> visited).
Proof.
  intros k' Hk'. unfold seen in *.
  destruct (decide (k = k')) as [->|Hne].
  - by rewrite lookup_insert_eq.
  - by rewrite lookup_insert_ne.
Qed.

(** One step of the walker on two valid values of one type: the cycle
    detector, then the [switch]. *)
Lemma deepValueEqual_step fuel t fa1 d1 fa2 d2 visited depth
    (v1 := Val t fa1 d1) (v2 := Val t fa2 d2) :
  deepValueEqual mapiter h (S fuel) v1 v2 visited depth
  = match cycleKey v1 v2 with
    | Some k =>
        if seen visited k then Done (None, visited)
        else kindSwitch mapiter h (deepValueEqual mapiter h fuel) v1 v2
               (<[k := true]> visited) depth
    | None =>
        kindSwitch mapiter h (deepValueEqual mapiter h fuel) v1 v2 visited depth
    end.
Proof.
  subst v1 v2.
  cbn [deepValueEqual IsValid negb orb TypeOf must mbind result_bind].
  rewrite bool_decide_ne_refl.
  unfold cycleKey.
  destruct fa1 as [st1 e1 [addr1|]], fa2 as [st2 e2 [addr2|]];
    cbn [CanAddr UnsafeAddr flagOf flagAddr andb must mbind result_bind]; try done.
  by destruct (hard _).
Qed.

Lemma IsValid_setFlag fl v : IsValid (setFlag fl v) = IsValid v.
Proof. by destruct v. Qed.

(** Only a pair of a [hard] kind has a key. *)
Lemma cycleKey_not_hard v1 v2 : hard (KindOf v1) = false -> cycleKey v1 v2 = None.
Proof.
  intros Hhard. destruct v1 as [|t1 fl1 d1], v2 as [|t2 fl2 d2]; try done.
  unfold cycleKey. rewrite Hhard.
  by destruct (flagAddr fl1), (flagAddr fl2).
Qed.

(** Two values that are not both addressable have no key. *)
Lemma cycleKey_unaddressed v1 v2 :
  CanAddr v1 && CanAddr v2 = false -> cycleKey v1 v2 = None.
Proof.
  destruct v1 as [|t1 fl1 d1], v2 as [|t2 fl2 d2]; try done.
  unfold cycleKey, CanAddr. cbn [flagOf].
  by destruct (flagAddr fl1), (flagAddr fl2).
Qed.

(** Running the monadic code of the walker inside a hypothesis: case on
    the next [reflect] call or test, and drop the runs that do not
    return. *)
Ltac run_in H :=
  repeat first
    [ progress cbn [must mbind result_bind wrap fmap option_fmap option_map] in H
    | match type of H with
      | Done _ = Done _ => fail 1
      | Panic = Done _ => discriminate H
      | OutOfFuel = Done _ => discriminate H
      | context [must ?o] => destruct o eqn:?
      | context [isNaN64 ?v] => destruct (isNaN64 v) as [[]| |] eqn:?
      | context [if ?b then _ else _] => destruct b eqn:?
      | context [match ?p with (_, _) => _ end] => destruct p
      | context [match ?e with Some _ => _ | None => _ end] => destruct e eqn:?
      | context [@mbind result _ _ _ _ ?m] => destruct m eqn:?
      end ].

Lemma leafCase_visited v1 v2 visited err visited' :
  leafCase h v1 v2 visited = Done (err, visited') -> visited' = visited.
Proof.
  unfold leafCase. intros H. run_in H; by injection H as _ <-.
Qed.

Lemma forEach_grows {A} (body : A -> Visited -> result (error * Visited)) xs :
  (forall x visited err visited',
     body x visited = Done (err, visited') -> grows visited visited') ->
  forall visited err visited',
    forEach body xs visited = Done (err, visited') -> grows visited visited'.
Proof.
  intros Hbody. induction xs as [|x xs IH]; intros visited err visited' H.
  - injection H as _ <-. apply grows_refl.
  - cbn [forEach mbind result_bind] in H.
    destruct (body x visited) as [[e vis1]| |] eqn:Hx; try done.
    apply Hbody in Hx. destruct e.
    + injection H as _ <-. done.
    + eapply grows_trans; [done|]. by eapply IH.
Qed.

Lemma kindSwitch_grows rec :
  (forall x y visited depth err visited',
     rec x y visited depth = Done (err, visited') -> grows visited visited') ->
  forall v1 v2 visited depth err visited',
    kindSwitch mapiter h rec v1 v2 visited depth = Done (err, visited') ->
    grows visited visited'.
Proof.
  intros Hrec v1 v2 visited depth err visited' H.
  unfold kindSwitch in H.
  assert (Hdone : forall (e e' : error) (vis vis0 vis' : Visited),
            Done (e, vis0) = Done (e', vis') ->
            vis0 = vis \/ (exists x y d o, rec x y vis d = Done (o, vis0)) ->
            grows vis vis').
  { intros e e' vis vis0 vis' [= _ <-] [->|(x & y & d & o & Hr)];
      [apply grows_refl|by eapply Hrec]. }
  destruct (KindOf v1);
    try (apply leafCase_visited in H; subst; apply grows_refl);
    run_in H;
    try (eapply Hdone; [exact H|]; eauto 8);
    (eapply forEach_grows; [|exact H]); clear H;
    intros x vis e vis' H; try unfold mapEntry in H; run_in H;
    (eapply Hdone; [exact H|]; eauto 8).
Qed.

(** The set of remembered pairs only grows during a call. *)
Lemma deepValueEqual_grows fuel : forall v1 v2 visited depth err visited',
  deepValueEqual mapiter h fuel v1 v2 visited depth = Done (err, visited') ->
  grows visited visited'.
Proof.
  induction fuel as [|fuel IH]; intros v1 v2 visited depth err visited' H; [done|].
  destruct v1 as [|t1 fa1 d1], v2 as [|t2 fa2 d2];
    try (cbn in H; injection H as _ <-; apply grows_refl).
  destruct (decide (t1 = t2)) as [<-|Hne].
  - rewrite deepValueEqual_step in H.
    destruct (cycleKey _ _) as [k|].
    + destruct (seen visited k).
      * injection H as _ <-. apply grows_refl.
      * eapply grows_trans; [apply (grows_insert _ k)|].
        eapply kindSwitch_grows; [|exact H]. apply IH.
    + eapply kindSwitch_grows; [|exact H]. apply IH.
  - rewrite type_guard in H by done. injection H as _ <-. apply grows_refl.
Qed.


(** C5: an addressable pair of a [hard] kind is looked up under its key,
    the two addresses in order and the type.  When the key is remembered
    the walker returns nil at once, with any fuel and without a recursive
    call; when it is not, the [switch] runs with the key already
    remembered, so every recursive call below sees it, and the key is
    still remembered when the call returns. *)
Theorem cycle_detector fuel t ro1 em1 addr1 d1 ro2 em2 addr2 d2 visited depth
    (v1 := Val t (mkFlag ro1 em1 (Some addr1)) d1)
    (v2 := Val t (mkFlag ro2 em2 (Some addr2)) d2)
    (k := visitKey addr1 addr2 t) :
  hard (KindOf v1) = true ->
  k = mkVisit (Z.min addr1 addr2) (Z.max addr1 addr2) t
  /\ (seen visited k = true ->
      deepValueEqual mapiter h (S fuel) v1 v2 visited depth = Done (None, visited))
  /\ (seen visited k = false ->
      deepValueEqual mapiter h (S fuel) v1 v2 visited depth
      = kindSwitch mapiter h (deepValueEqual mapiter h fuel) v1 v2
          (<[k := true]> visited) depth)
  /\ (forall err visited',
        deepValueEqual mapiter h (S fuel) v1 v2 visited depth = Done (err, visited') ->
        seen visited' k = true).
Proof.
  intros Hhard.
  assert (Hstep :
    deepValueEqual mapiter h (S fuel) v1 v2 visited depth
    = if seen visited k then Done (None, visited)
      else kindSwitch mapiter h (deepValueEqual mapiter h fuel) v1 v2
             (<[k := true]> visited) depth).
  { subst v1 v2 k. rewrite deepValueEqual_step. unfold cycleKey.
    cbn [flagAddr]. by rewrite Hhard. }
  split; [|split; [|split]].
  - subst k. unfold visitKey.
    destruct (Z.gtb_spec addr1 addr2); f_equal; lia.
  - intros Hseen. by rewrite Hstep, Hseen.
  - intros Hseen. by rewrite Hstep, Hseen.
  - intros err visited' Hrun. rewrite Hstep in Hrun.
    destruct (seen visited k) eqn:Hseen.
    + by injection Hrun as _ <-.
    + eapply kindSwitch_grows in Hrun; [|apply deepValueEqual_grows].
      apply Hrun, seen_insert.
Qed.

(** *** Slices and maps *)

(** The tests of the [Map] case that come before the loop over the keys. *)
Lemma switch_map rec t fa1 fa2 p1 p2 n1 n2 visited depth
    (v1 := Val t fa1 (DMap p1)) (v2 := Val t fa2 (DMap p2)) :
  Len h v1 = Some n1 -> Len h v2 = Some n2 ->
  negb (Bool.eqb (p1 =? 0) (p2 =? 0)) = true
  \/ negb (n1 =? n2)%nat = true \/ (p1 =? p2) = true ->
  kindSwitch mapiter h rec v1 v2 visited depth
  = if negb (Bool.eqb (p1 =? 0) (p2 =? 0)) then
      Done (Errorf (if p1 =? 0
                    then " are not equal, where in x is nil but in y is not"
                    else " are not equal, where in y is nil but in x is not"),
            visited)
    else if negb (n1 =? n2)%nat then
      Done (Errorf (" do not have the same length, where in x is "
                    +:+ pretty n1 +:+ " but in y is " +:+ pretty n2), visited)
    else Done (None, visited).
Proof.
  subst v1 v2. intros Hl1 Hl2 Hguard. unfold kindSwitch.
  cbn [KindOf IsNil Pointer must mbind result_bind].
  destruct (negb (Bool.eqb (p1 =? 0) (p2 =? 0))) eqn:Hnil.
  { by destruct (p1 =? 0). }
  rewrite Hl1. cbn [must mbind result_bind]. rewrite Hl2.
  cbn [must mbind result_bind].
  destruct (negb (n1 =? n2)%nat) eqn:Hlen; [done|].
  destruct Hguard as [Hg|[Hg|Hg]]; [done|done|by rewrite Hg].
Qed.



(** The tests of the [Slice] case that come before the loop over the
    elements. *)
Lemma switch_slice rec t fa1 fa2 p1 p2 n1 n2 visited depth
    (v1 := Val t fa1 (DSlice p1 n1)) (v2 := Val t fa2 (DSlice p2 n2)) :
  negb (Bool.eqb (p1 =? 0) (p2 =? 0)) = true
  \/ negb (n1 =? n2)%nat = true \/ (p1 =? p2) = true ->
  kindSwitch mapiter h rec v1 v2 visited depth
  = if negb (Bool.eqb (p1 =? 0) (p2 =? 0)) then
      Done (Errorf (if p1 =? 0 then " in x is nil but in y is not"
                    else " in y is nil but in x is not"), visited)
    else if negb (n1 =? n2)%nat then
      Done (Errorf " do not have the same length", visited)
    else Done (None, visited).
Proof.
  subst v1 v2. intros Hguard. unfold kindSwitch.
  cbn [KindOf IsNil Len Pointer must mbind result_bind].
  destruct (negb (Bool.eqb (p1 =? 0) (p2 =? 0))) eqn:Hnil.
  { by destruct (p1 =? 0). }
  destruct (negb (n1 =? n2)%nat) eqn:Hlen; [done|].
  destruct Hguard as [Hg|[Hg|Hg]]; [done|done|by rewrite Hg].
Qed.

(** A nil result of the [switch] that leaves [visited] alone is a nil
    result of the walker: the cycle detector can only return nil sooner. *)
Lemma deepValueEqual_nil_of_switch fuel t fa1 d1 fa2 d2 depth
    (v1 := Val t fa1 d1) (v2 := Val t fa2 d2) :
  (forall visited, exists visited',
     kindSwitch mapiter h (deepValueEqual mapiter h fuel) v1 v2 visited depth
     = Done (None, visited')) ->
  forall visited, exists visited',
    deepValueEqual mapiter h (S fuel) v1 v2 visited depth = Done (None, visited').
Proof.
  intros Hswitch visited. subst v1 v2. rewrite deepValueEqual_step.
  destruct (cycleKey _ _) as [k|]; [|eauto].
  destruct (seen visited k); eauto.
Qed.

Lemma DeepEqualExplained_of_switch fuel t fa1 d1 fa2 d2 err
    (v1 := Val t fa1 d1) (v2 := Val t fa2 d2) :
  kindSwitch mapiter h (deepValueEqual mapiter h fuel) (copy v1) (copy v2) ∅ 0
  = Done (err, ∅) ->
  DeepEqualExplained mapiter h (S fuel) v1 v2 = Done (wrap "values" err).
Proof.
  subst v1 v2. intros Hswitch. unfold DeepEqualExplained.
  cbn [IsValid negb orb ValueOf copy setFlag TypeOf must mbind result_bind] in *.
  rewrite bool_decide_ne_refl, deepValueEqual_step.
  cbn [cycleKey]. rewrite Hswitch. by destruct err.
Qed.

(** C7: two slices, or two maps, of one type, with the same data pointer
    and the same length are equal: the [switch] returns nil whatever the
    recursive call [rec] is and whatever the heap holds at the pointer, so
    no element is looked at, and the walker and the entry point return nil
    with one unit of fuel. *)
Theorem same_storage rec t fa1 fa2 p n visited depth :
  (kindSwitch mapiter h rec (Val t fa1 (DSlice p n)) (Val t fa2 (DSlice p n))
     visited depth = Done (None, visited)
   /\ forall fuel,
        (exists visited',
           deepValueEqual mapiter h (S fuel) (Val t fa1 (DSlice p n))
             (Val t fa2 (DSlice p n)) visited depth = Done (None, visited'))
        /\ DeepEqualExplained mapiter h (S fuel) (Val t fa1 (DSlice p n))
             (Val t fa2 (DSlice p n)) = Done None)
  /\ (Len h (Val t fa1 (DMap p)) = Some n ->
      kindSwitch mapiter h rec (Val t fa1 (DMap p)) (Val t fa2 (DMap p))
        visited depth = Done (None, visited)
      /\ forall fuel,
           (exists visited',
              deepValueEqual mapiter h (S fuel) (Val t fa1 (DMap p))
                (Val t fa2 (DMap p)) visited depth = Done (None, visited'))
           /\ DeepEqualExplained mapiter h (S fuel) (Val t fa1 (DMap p))
                (Val t fa2 (DMap p)) = Done None).
Proof.
  assert (Hs : forall rec fa1 fa2 visited depth,
    kindSwitch mapiter h rec (Val t fa1 (DSlice p n)) (Val t fa2 (DSlice p n))
      visited depth = Done (None, visited)).
  { intros. rewrite switch_slice by (rewrite Z.eqb_refl; auto).
    by rewrite eqb_reflx, Nat.eqb_refl. }
  split.
  - split; [apply Hs|]. intros fuel. split.
    + apply deepValueEqual_nil_of_switch. intros. eexists. apply Hs.
    + apply (DeepEqualExplained_of_switch fuel t fa1 _ fa2 _ None), Hs.
  - intros Hlen.
    assert (Hm : forall rec fa1 fa2 visited depth,
      kindSwitch mapiter h rec (Val t fa1 (DMap p)) (Val t fa2 (DMap p))
        visited depth = Done (None, visited)).
    { intros. rewrite (switch_map _ _ _ _ _ _ n n); try done.
      - by rewrite eqb_reflx, Nat.eqb_refl.
      - rewrite Z.eqb_refl; auto. }
    split; [apply Hm|]. intros fuel. split.
    + apply deepValueEqual_nil_of_switch. intros. eexists. apply Hm.
    + apply (DeepEqualExplained_of_switch fuel t fa1 _ fa2 _ None), Hm.
Qed.

(** The length test of the [Slice] case: the message carries no length. *)
Lemma slice_length_mismatch rec t fa1 fa2 p1 p2 n1 n2 visited depth :
  (p1 =? 0) = (p2 =? 0) -> n1 ≠ n2 ->
  kindSwitch mapiter h rec (Val t fa1 (DSlice p1 n1)) (Val t fa2 (DSlice p2 n2))
    visited depth
  = Done (Errorf " do not have the same length", visited).
Proof.
  intros Hnil Hne.
  assert (Hlen : negb (n1 =? n2)%nat = true).
  { apply negb_true_iff, Nat.eqb_neq, Hne. }
  rewrite switch_slice by auto.
  by rewrite Hnil, eqb_reflx, Hlen.
Qed.


(** *** A value compared with itself *)

Lemma selfEqual_setFlag fl v : selfEqual h (setFlag fl v) = selfEqual h v.
Proof. by destruct v. Qed.

Lemma nesting_setFlag fl v : nesting (setFlag fl v) = nesting v.
Proof. by destruct v. Qed.

Lemma selfEqual_copy v : selfEqual h (copy v) = selfEqual h v.
Proof. apply selfEqual_setFlag. Qed.

Lemma nesting_copy v : nesting (copy v) = nesting v.
Proof. apply nesting_setFlag. Qed.

Lemma selfEqual_part w v : selfEqual h (part w v) = selfEqual h v.
Proof. apply selfEqual_setFlag. Qed.

Lemma nesting_part w v : nesting (part w v) = nesting v.
Proof. apply nesting_setFlag. Qed.

Lemma selfEqual_fieldPart w v : selfEqual h (fieldPart w v) = selfEqual h v.
Proof. apply selfEqual_setFlag. Qed.

Lemma nesting_fieldPart w v : nesting (fieldPart w v) = nesting v.
Proof. apply nesting_setFlag. Qed.

Lemma forEach_nil {A} (body : A -> Visited -> result (error * Visited)) xs :
  (forall x, In x xs ->
     forall visited, exists visited', body x visited = Done (None, visited')) ->
  forall visited, exists visited', forEach body xs visited = Done (None, visited').
Proof.
  induction xs as [|x xs IH]; intros Hbody visited; [by eexists|].
  destruct (Hbody x (or_introl eq_refl) visited) as [vis1 Hx].
  cbn [forEach mbind result_bind]. rewrite Hx.
  apply IH. intros y Hy. apply Hbody. by right.
Qed.

Lemma nesting_elem (elems : list Value) i c :
  elems !! i = Some c -> (nesting c <= list_max (map nesting elems))%nat.
Proof.
  intros Hi.
  assert (Hall : Forall (fun k => (k <= list_max (map nesting elems))%nat)
                        (map nesting elems)) by by apply list_max_le.
  rewrite Forall_forall in Hall.
  apply Hall, list_elem_of_In, in_map, list_elem_of_In.
  by eapply list_elem_of_lookup_2.
Qed.

Lemma nesting_field (fields : list (string * Value)) i f :
  fields !! i = Some f ->
  (nesting f.2 <= list_max (map (fun f => nesting f.2) fields))%nat.
Proof.
  intros Hi.
  assert (Hall : Forall (fun k => (k <= list_max (map (fun f => nesting f.2) fields))%nat)
                        (map (fun f => nesting f.2) fields)) by by apply list_max_le.
  rewrite Forall_forall in Hall.
  apply Hall, list_elem_of_In, (in_map (fun f => nesting f.2)), list_elem_of_In.
  by eapply list_elem_of_lookup_2.
Qed.

Lemma forallb_lookup {A} (f : A -> bool) (l : list A) i x :
  forallb f l = true -> l !! i = Some x -> f x = true.
Proof.
  intros Hall Hi. rewrite forallb_forall in Hall.
  by eapply Hall, list_elem_of_In, list_elem_of_lookup_2.
Qed.

(** The walker on a value and itself returns nil, once the fuel covers
    the nesting of the value. *)
Lemma deepValueEqual_refl fuel : forall v visited depth,
  selfEqual h v = true -> (nesting v < fuel)%nat ->
  exists visited',
    deepValueEqual mapiter h fuel v v visited depth = Done (None, visited').
Proof.
  induction fuel as [|fuel IH]; intros v visited depth Hself Hfuel; [lia|].
  destruct v as [|t fa d]; [by eexists|].
  revert visited. apply deepValueEqual_nil_of_switch. intros visited.
  destruct d as [s|elems|p n|fields|e|p|p|p].
  - rewrite kindSwitch_scalar, leafCase_scalar.
    cbn in Hself. apply negb_true_iff in Hself. rewrite Hself.
    rewrite bool_decide_ne_refl. by eexists.
  - unfold kindSwitch. cbn [KindOf Len must mbind result_bind].
    apply forEach_nil. intros i Hi vis.
    apply in_seq in Hi. destruct (lookup_lt_is_Some_2 elems i) as [c Hc]; [lia|].
    cbn [Index]. rewrite Hc. cbn [fmap option_fmap option_map must mbind result_bind].
    destruct (IH (part (Val t fa (DArray elems)) c) vis (depth + 1)) as [vis' Hrec].
    + rewrite selfEqual_part. cbn in Hself. by eapply forallb_lookup.
    + rewrite nesting_part. apply nesting_elem in Hc. cbn in Hfuel. lia.
    + rewrite Hrec. by eexists.
  - eexists. rewrite switch_slice by (rewrite Z.eqb_refl; auto).
    by rewrite eqb_reflx, Nat.eqb_refl.
  - unfold kindSwitch. cbn [KindOf NumField must mbind result_bind].
    apply forEach_nil. intros i Hi vis.
    apply in_seq in Hi. destruct (lookup_lt_is_Some_2 fields i) as [f Hf]; [lia|].
    cbn [Field]. rewrite Hf. cbn [fmap option_fmap option_map must mbind result_bind].
    destruct (IH (fieldPart (Val t fa (DStruct fields)) f.2) vis (depth + 1))
      as [vis' Hrec].
    + rewrite selfEqual_fieldPart. cbn in Hself.
      by apply (forallb_lookup (fun f => selfEqual h f.2) fields i f).
    + rewrite nesting_fieldPart. apply nesting_field in Hf. cbn in Hfuel. lia.
    + rewrite Hrec. by eexists.
  - unfold kindSwitch. cbn [KindOf IsNil must mbind result_bind].
    destruct e as [|te fae de]; [by eexists|].
    cbn [IsValid negb orb Elem must mbind result_bind].
    destruct (IH (setFlag (mkFlag (ro fa) false None) (Val te fae de)) visited
                (depth + 1)) as [vis' Hrec].
    + by rewrite selfEqual_setFlag.
    + rewrite nesting_setFlag. cbn in Hfuel |- *. lia.
    + rewrite Hrec. by eexists.
  - unfold kindSwitch. cbn [KindOf Pointer must mbind result_bind].
    rewrite Z.eqb_refl. by eexists.
  - assert (exists n, Len h (Val t fa (DMap p)) = Some n) as [n Hlen].
    { cbn [Len]. cbn in Hself. destruct (p =? 0); [by eexists|].
      apply bool_decide_eq_true_1 in Hself as [tab ->]. by eexists. }
    eexists. rewrite (switch_map _ _ _ _ _ _ n n); try done.
    + by rewrite eqb_reflx, Nat.eqb_refl.
    + rewrite Z.eqb_refl; auto.
  - unfold kindSwitch. cbn [KindOf IsNil must mbind result_bind].
    cbn in Hself. rewrite Hself. by eexists.
Qed.

(** C3, amended: a value whose parts held in place have no [Float64] NaN
    and no func that is not nil is equal to itself: the entry point
    returns nil, with any fuel above the nesting of the value. *)
Theorem self_comparison v :
  selfEqual h v = true ->
  returns (fun fuel => DeepEqualExplained mapiter h fuel v v) None.
Proof.
  intros Hself. exists (S (nesting v)). intros fuel Hfuel.
  destruct v as [|t fa d]; [done|].
  unfold DeepEqualExplained.
  cbn [IsValid negb orb ValueOf TypeOf copy setFlag must mbind result_bind].
  rewrite bool_decide_ne_refl.
  destruct (deepValueEqual_refl fuel (Val t plain d) ∅ 0) as [vis' Hrun].
  - done.
  - change (nesting (Val t plain d)) with (nesting (Val t fa d)). lia.
  - by rewrite Hrun.
Qed.


(** *** Cycles *)

Lemma fieldsAgree_lookup a b l1 : forall l2,
  fieldsAgree a b l1 l2 = true ->
  length l1 = length l2
  /\ forall i f1, l1 !! i = Some f1 ->
       exists f2, l2 !! i = Some f2 /\ fieldAgrees a b f1 f2 = true.
Proof.
  induction l1 as [|f1 l1 IH]; intros [|f2 l2] Hagree; try done.
  cbn [fieldsAgree] in Hagree. apply andb_true_iff in Hagree as [Hf Hl].
  destruct (IH l2 Hl) as [Hlen Hlook]. split; [cbn; lia|].
  intros [|i] f Hi.
  - injection Hi as <-. by exists f2.
  - by apply Hlook.
Qed.

(** What [%v] prints for a scalar depends on its flag through
    [CanInterface] only. *)
Lemma text_same_ro t fl1 fl2 s :
  ro fl1 = ro fl2 ->
  fmt.text h (Val t fl1 (DScalar s)) = fmt.text h (Val t fl2 (DScalar s)).
Proof.
  intros Hro.
  unfold fmt.text, fmt.verb_v, fmt.handleMethods, CanInterface.
  by rewrite Hro.
Qed.

Lemma sameRO_eq fl1 fl2 :
  sameRO fl1 fl2 = true ->
  flagStickyRO fl1 = flagStickyRO fl2 /\ flagEmbedRO fl1 = flagEmbedRO fl2.
Proof.
  unfold sameRO. intros [H1 H2]%andb_true_iff.
  by apply eqb_prop in H1, H2.
Qed.

Lemma forEach_nil_same {A} (body : A -> Visited -> result (error * Visited))
    xs visited :
  (forall x, In x xs -> body x visited = Done (None, visited)) ->
  forEach body xs visited = Done (None, visited).
Proof.
  induction xs as [|x xs IH]; intros Hbody; [done|].
  cbn [forEach mbind result_bind]. rewrite (Hbody x (or_introl eq_refl)).
  apply IH. intros y Hy. apply Hbody. by right.
Qed.

Section self_referential.

Variables (tN : rtype) (a b : addr) (fields1 fields2 : list (string * Value)).
Variables (fa fb : flag).
Hypothesis cell_a : cells h !! a = Some (Val tN fa (DStruct fields1)).
Hypothesis cell_b : cells h !! b = Some (Val tN fb (DStruct fields2)).
Hypothesis a_not_nil : a ≠ 0.
Hypothesis b_not_nil : b ≠ 0.
Hypothesis agree : fieldsAgree a b fields1 fields2 = true.

Lemma cycleKey_pointers tP fa1 fa2 p q :
  cycleKey (Val tP fa1 (DPtr p)) (Val tP fa2 (DPtr q)) = None.
Proof. by apply cycleKey_not_hard. Qed.

(** A pointer back to the records, once the pair of records is
    remembered. *)
Lemma back_pointer fuel tP fa1 fa2 visited depth :
  seen visited (visitKey a b tN) = true ->
  deepValueEqual mapiter h (S (S fuel)) (Val tP fa1 (DPtr a)) (Val tP fa2 (DPtr b))
    visited depth = Done (None, visited).
Proof.
  intros Hseen. rewrite deepValueEqual_step, cycleKey_pointers.
  unfold kindSwitch. cbn [KindOf Pointer Elem must mbind result_bind].
  destruct (a =? b); [done|].
  rewrite (proj2 (Z.eqb_neq a 0)), (proj2 (Z.eqb_neq b 0)) by done.
  rewrite cell_a, cell_b.
  cbn [fmap option_fmap option_map target setFlag must mbind result_bind].
  rewrite deepValueEqual_step. cbn [cycleKey flagAddr KindOf hard].
  by rewrite Hseen.
Qed.

(** The loop over the fields of the two records, once the pair is
    remembered: every field is equal and nothing more is remembered. *)
Lemma record_fields fuel fa1 fa2 visited depth :
  flagStickyRO fa1 = flagStickyRO fa2 ->
  seen visited (visitKey a b tN) = true ->
  kindSwitch mapiter h (deepValueEqual mapiter h (S (S fuel)))
    (Val tN fa1 (DStruct fields1)) (Val tN fa2 (DStruct fields2)) visited depth
  = Done (None, visited).
Proof.
  intros Hro Hseen. unfold kindSwitch.
  cbn [KindOf NumField must mbind result_bind].
  destruct (fieldsAgree_lookup _ _ _ _ agree) as [Hlen Hlook].
  apply forEach_nil_same. intros i Hi. apply in_seq in Hi.
  destruct (lookup_lt_is_Some_2 fields1 i) as [f1 Hf1]; [lia|].
  destruct (Hlook i f1 Hf1) as (f2 & Hf2 & Hf).
  cbn [Field]. rewrite Hf1, Hf2.
  cbn [fmap option_fmap option_map must mbind result_bind].
  unfold fieldAgrees in Hf.
  destruct f1 as [n1 [|t1 fa1' [s1| | | | |p1| |]]],
           f2 as [n2 [|t2 fa2' [s2| | | | |p2| |]]]; try done;
    cbn [snd] in *; unfold fieldPart; cbn [setFlag flagOf].
  - apply andb_true_iff in Hf as [Hf Hnan].
    apply andb_true_iff in Hf as [Hf Hs].
    apply andb_true_iff in Hf as [Ht [Hst Hem]%sameRO_eq].
    apply bool_decide_eq_true_1 in Ht as <-.
    apply bool_decide_eq_true_1 in Hs as <-.
    apply negb_true_iff in Hnan.
    rewrite deepValueEqual_scalar, kindSwitch_scalar, leafCase_scalar.
    rewrite Hnan, (text_same_ro t1 _ (mkFlag (flagStickyRO fa2 || flagStickyRO fa2')
                      (flagEmbedRO fa2') (partAddr (Val tN fa2 (DStruct fields2))
                                            (Val t1 fa2' (DScalar s1)))));
      [by rewrite bool_decide_ne_refl|].
    unfold ro. cbn [flagStickyRO flagEmbedRO]. by rewrite Hro, Hst, Hem.
  - apply andb_true_iff in Hf as [Hf Hb].
    apply andb_true_iff in Hf as [Hf Ha].
    apply andb_true_iff in Hf as [Ht _].
    apply bool_decide_eq_true_1 in Ht as <-.
    apply Z.eqb_eq in Ha as ->. apply Z.eqb_eq in Hb as ->.
    by rewrite back_pointer.
Qed.

(** The two records, reached through pointers to them. *)
Lemma record_pointers fuel tP fa1 fa2 visited depth :
  flagStickyRO fa1 = flagStickyRO fa2 ->
  exists visited',
    deepValueEqual mapiter h (S (S (S (S fuel)))) (Val tP fa1 (DPtr a))
      (Val tP fa2 (DPtr b)) visited depth = Done (None, visited').
Proof.
  intros Hro.
  destruct (seen visited (visitKey a b tN)) eqn:Hseen.
  { eexists. by apply back_pointer. }
  rewrite deepValueEqual_step, cycleKey_pointers.
  unfold kindSwitch. cbn [KindOf Pointer Elem must mbind result_bind].
  destruct (a =? b); [by eexists|].
  rewrite (proj2 (Z.eqb_neq a 0)), (proj2 (Z.eqb_neq b 0)) by done.
  rewrite cell_a, cell_b.
  cbn [fmap option_fmap option_map target setFlag flagOf must mbind result_bind].
  rewrite deepValueEqual_step. cbn [cycleKey flagAddr KindOf hard].
  rewrite Hseen, record_fields by (done || apply seen_insert).
  by eexists.
Qed.

(** A record that refers back to itself through a pointer field,
    compared with a record that does the same and has the same scalars
    in its other fields, is equal, and the call returns: four units of
    fuel are enough when the two are given by pointers, and five when
    they are given by value. *)
Lemma self_referential_record tP fa1 fa2 :
  returns (fun fuel =>
             DeepEqualExplained mapiter h fuel (Val tP fa1 (DPtr a))
               (Val tP fa2 (DPtr b))) None
  /\ returns (fun fuel =>
                DeepEqualExplained mapiter h fuel (Val tN fa1 (DStruct fields1))
                  (Val tN fa2 (DStruct fields2))) None.
Proof.
  split.
  - exists 4%nat. intros fuel Hfuel.
    do 4 (destruct fuel as [|fuel]; [lia|]).
    unfold DeepEqualExplained.
    cbn [IsValid negb orb ValueOf TypeOf copy setFlag must mbind result_bind].
    rewrite bool_decide_ne_refl.
    destruct (record_pointers fuel tP plain plain ∅ 0) as [visited' ->]; done.
  - exists 5%nat. intros fuel Hfuel.
    do 5 (destruct fuel as [|fuel]; [lia|]).
    unfold DeepEqualExplained.
    cbn [IsValid negb orb ValueOf TypeOf copy setFlag must mbind result_bind].
    rewrite bool_decide_ne_refl, deepValueEqual_step.
    cbn [cycleKey flagAddr plain]. unfold kindSwitch.
    cbn [KindOf NumField must mbind result_bind].
    destruct (fieldsAgree_lookup _ _ _ _ agree) as [Hlen Hlook].
    match goal with
    | |- context [forEach ?body ?xs ?vis] =>
        assert (Hloop : exists visited', forEach body xs vis = Done (None, visited'));
          [apply forEach_nil|by destruct Hloop as [visited' ->]]
    end.
    intros i Hi visited. apply in_seq in Hi.
    destruct (lookup_lt_is_Some_2 fields1 i) as [f1 Hf1]; [lia|].
    destruct (Hlook i f1 Hf1) as (f2 & Hf2 & Hf).
    cbn [Field]. rewrite Hf1, Hf2.
    cbn [fmap option_fmap option_map must mbind result_bind].
    unfold fieldAgrees in Hf.
    destruct f1 as [n1 [|t1 fa1' [s1| | | | |p1| |]]],
             f2 as [n2 [|t2 fa2' [s2| | | | |p2| |]]]; try done;
      cbn [snd] in *; unfold fieldPart; cbn [setFlag flagOf].
    + apply andb_true_iff in Hf as [Hf Hnan].
      apply andb_true_iff in Hf as [Hf Hs].
      apply andb_true_iff in Hf as [Ht [Hst Hem]%sameRO_eq].
      apply bool_decide_eq_true_1 in Ht as <-.
      apply bool_decide_eq_true_1 in Hs as <-.
      apply negb_true_iff in Hnan.
      rewrite deepValueEqual_scalar, kindSwitch_scalar, leafCase_scalar.
      rewrite Hnan, (text_same_ro t1 _ (mkFlag (flagStickyRO plain || flagStickyRO fa2')
                        (flagEmbedRO fa2') (partAddr (Val tN plain (DStruct fields2))
                                              (Val t1 fa2' (DScalar s1)))));
        [rewrite bool_decide_ne_refl; by eexists|].
      unfold ro. cbn [flagStickyRO flagEmbedRO]. by rewrite Hst, Hem.
    + apply andb_true_iff in Hf as [Hf Hb].
      apply andb_true_iff in Hf as [Hf Ha].
      apply andb_true_iff in Hf as [Ht [Hst Hem]%sameRO_eq].
      apply bool_decide_eq_true_1 in Ht as <-.
      apply Z.eqb_eq in Ha as ->. apply Z.eqb_eq in Hb as ->.
      edestruct (record_pointers fuel t1) as [visited' ->];
        [|by eexists].
      cbn [flagStickyRO]. by rewrite Hst.
Qed.

End self_referential.


(** A map that holds itself under a key, compared with another such map:
    neither map is addressable, so nothing is remembered, and the walker
    comes back to the same pair for ever. *)
Lemma map_in_itself t kt ks p1 p2 :
  p1 ≠ 0 -> p2 ≠ 0 -> p1 ≠ p2 ->
  tables h !! p1 = Some [(kt, ks, Val t plain (DMap p1))] ->
  tables h !! p2 = Some [(kt, ks, Val t plain (DMap p2))] ->
  scalarEq ks ks = true ->
  mapiter [Val kt plain (DScalar ks)] = [Val kt plain (DScalar ks)] ->
  forall fuel visited depth,
    deepValueEqual mapiter h fuel (Val t plain (DMap p1)) (Val t plain (DMap p2))
      visited depth = OutOfFuel.
Proof.
  intros Hp1 Hp2 Hne Ht1 Ht2 Hks Hiter.
  induction fuel as [|fuel IH]; intros visited depth; [done|].
  rewrite deepValueEqual_step. cbn [cycleKey]. unfold kindSwitch.
  cbn [KindOf IsNil Len Pointer MapKeys MapIndex must mbind result_bind].
  rewrite (proj2 (Z.eqb_neq p1 0)), (proj2 (Z.eqb_neq p2 0)) by done.
  rewrite Ht1, Ht2.
  cbn [eqb negb fmap option_fmap option_map length Nat.eqb must mbind result_bind
       list_fmap keyValue fst snd].
  rewrite (proj2 (Z.eqb_neq p1 p2)) by done.
  unfold keyValue. cbn [fst snd ro plain flagStickyRO flagEmbedRO orb].
  change (mkFlag false false None) with plain. rewrite Hiter.
  unfold mapEntry.
  cbn [forEach MapIndex must mbind result_bind lookupKey find fst snd].
  rewrite (proj2 (Z.eqb_neq p1 0)), (proj2 (Z.eqb_neq p2 0)) by done.
  rewrite Ht1, Ht2. cbn [fmap option_fmap option_map must mbind result_bind].
  unfold lookupKey. cbn [find fst snd]. rewrite Hks.
  cbn [setFlag IsValid negb must mbind result_bind ro plain flagStickyRO
       flagEmbedRO orb].
  change (mkFlag false false None) with plain.
  by rewrite IH.
Qed.

Lemma map_in_itself_never_returns t kt ks p1 p2 fa1 fa2 :
  p1 ≠ 0 -> p2 ≠ 0 -> p1 ≠ p2 ->
  tables h !! p1 = Some [(kt, ks, Val t plain (DMap p1))] ->
  tables h !! p2 = Some [(kt, ks, Val t plain (DMap p2))] ->
  scalarEq ks ks = true ->
  mapiter [Val kt plain (DScalar ks)] = [Val kt plain (DScalar ks)] ->
  neverReturns (fun fuel =>
    DeepEqualExplained mapiter h fuel (Val t fa1 (DMap p1)) (Val t fa2 (DMap p2))).
Proof.
  intros Hp1 Hp2 Hne Ht1 Ht2 Hks Hiter fuel. unfold DeepEqualExplained.
  cbn [IsValid negb orb ValueOf TypeOf copy setFlag must mbind result_bind].
  rewrite bool_decide_ne_refl.
  by rewrite (map_in_itself t kt ks p1 p2).
Qed.

End properties.

(** *** Two runs of a loop *)

Lemma bind_ext {A B} (m : result A) (f g : A -> result B) :
  (forall x, f x = g x) -> m ≫= f = m ≫= g.
Proof. intros Hfg. destruct m; cbn; auto. Qed.

Lemma forEach_ext {A} (body1 body2 : A -> Visited -> result (error * Visited)) xs :
  (forall x visited, body1 x visited = body2 x visited) ->
  forall visited, forEach body1 xs visited = forEach body2 xs visited.
Proof.
  intros Hbody. induction xs as [|x xs IH]; intros visited; [done|].
  cbn [forEach]. rewrite Hbody. apply bind_ext. intros [[e|] vis]; auto.
Qed.

(** ** The properties at work on the examples *)

Import examples.

(** C9: a slice of one element against a slice of two: the message says
    that the lengths differ and gives neither, where the message for two
    maps gives both. *)
Theorem slice_length_message :
  DeepEqualExplained id sliceHeap 1 ints1 ints2
  = Done (Errorf "values do not have the same length")
  /\ DeepEqualExplained id mapHeap 1 (dict 48) (dict 96)
     = Done (Errorf "values do not have the same length, where in x is 1 but in y is 0").
Proof. split; vm_compute; reflexivity. Qed.

(** C1: a [Float32] NaN is equal to itself, and a [Float64] NaN against a
    value of another type is a type mismatch. *)
Lemma nan_counterexample :
  returns (fun fuel => DeepEqualExplained id emptyHeap fuel nan32 nan32) None
  /\ returns (fun fuel => DeepEqualExplained id emptyHeap fuel nan64 (int 1))
       (Errorf "values have different types, where in x is float64 but in y is int").
Proof.
  split; exists 1%nat; intros [|fuel] Hfuel; try lia; reflexivity.
Qed.

Lemma nan64_divergence_witness :
  deepValueEqual id emptyHeap 1 nan64 (Val tFloat64 plain (DScalar (SFloat W64 (FFin "1.5")))) ∅ 0
  = Done (Errorf " in x is NaN float", ∅)
  /\ DeepEqualExplained id emptyHeap 1 nan64
       (Val tFloat64 plain (DScalar (SFloat W64 (FFin "1.5"))))
     = Done (Errorf "values in x is NaN float").
Proof.
  exact (nan64_divergence id emptyHeap 0 tFloat64 plain plain (SFloat W64 FNaN)
           (SFloat W64 (FFin "1.5")) ∅ 0 eq_refl).
Defined.

(** C2: two maps that each hold themselves are compared for ever. *)
Lemma map_cycle_counterexample :
  neverReturns (fun fuel =>
    DeepEqualExplained id loopHeap fuel (loopMap 16) (loopMap 32)).
Proof.
  by apply (map_in_itself_never_returns id loopHeap tM tString (SString "me") 16 32).
Qed.

(** C3: an array that holds a NaN and a func that is not nil are not equal
    to themselves. *)
Lemma self_comparison_counterexample :
  returns (fun fuel => DeepEqualExplained id emptyHeap fuel nanArray nanArray)
    (Errorf "values[0] in x is NaN float")
  /\ returns (fun fuel => DeepEqualExplained id emptyHeap fuel someFunc someFunc)
       (Errorf "values has different func").
Proof.
  split; exists 2%nat; intros [|[|fuel]] Hfuel; try lia; reflexivity.
Qed.

Lemma self_comparison_witness :
  returns (fun fuel => DeepEqualExplained id nodeHeap fuel (node 256) (node 256)) None.
Proof. apply (self_comparison id nodeHeap (node 256)). reflexivity. Defined.

Lemma entry_guard_witness :
  DeepEqualExplained id emptyHeap 0 (int 1) (str "1")
  = Done (Errorf "values have different types, where in x is int but in y is string").
Proof.
  apply (proj2 (proj2 (proj2 (entry_guard id emptyHeap 0)))).
  discriminate.
Defined.



Lemma cycle_detector_witness :
  deepValueEqual id nodeHeap 1 (node 256) (node 512)
    {[mkVisit 256 512 tNode := true]} 0
  = Done (None, {[mkVisit 256 512 tNode := true]})
  /\ deepValueEqual id nodeHeap 3 (node 512) (node 256) ∅ 0
     = kindSwitch id nodeHeap (deepValueEqual id nodeHeap 2) (node 512) (node 256)
         (<[mkVisit 256 512 tNode := true]> ∅) 0.
Proof.
  split.
  - apply (cycle_detector id nodeHeap 0 tNode false false 256
             (DStruct (nodeFields 256)) false false 512 (DStruct (nodeFields 512))
             {[mkVisit 256 512 tNode := true]} 0 eq_refl).
    reflexivity.
  - apply (cycle_detector id nodeHeap 2 tNode false false 512
             (DStruct (nodeFields 512)) false false 256 (DStruct (nodeFields 256))
             ∅ 0 eq_refl).
    reflexivity.
Defined.



Lemma same_storage_witness :
  DeepEqualExplained id sliceHeap 1 ints2 ints2 = Done None
  /\ DeepEqualExplained id mapHeap 1 (dict 16) (dict 16) = Done None.
Proof.
  split.
  - exact (proj2 (proj2 (proj1 (same_storage id sliceHeap (fun _ _ _ _ => Panic)
             tInts plain plain 128 2 ∅ 0)) 0%nat)).
  - refine (proj2 (proj2 (proj2 (same_storage id mapHeap (fun _ _ _ _ => Panic)
              tDict plain plain 16 2 ∅ 0) _) 0%nat)).
    reflexivity.
Defined.

(** C8: two maps with two differing entries: the message names the key
    that comes first in the order of the run. *)
Lemma key_order_counterexample :
  DeepEqualExplained id mapHeap 2 (dict 16) (dict 32)
  = Done (Errorf "values[a] are not equal, where in x is 1 but in y is 3")
  /\ DeepEqualExplained (@rev Value) mapHeap 2 (dict 16) (dict 32)
     = Done (Errorf "values[b] are not equal, where in x is 2 but in y is 4").
Proof. split; vm_compute; reflexivity. Qed.

(** ** More properties of the walker *)

(** *** What a call leaves in [visited] *)

(** [visited'] is [visited] with some pairs set to true. *)
Definition extends (visited visited' : Visited) : Prop :=
  forall k, visited' !! k = visited !! k \/ visited' !! k = Some true.

(** *** The shape of a message *)

(** A message of the walker starts with a locator, [[i]], [[key]],
    [.Name], [(Ptr)] or [(Interface)], or with the space that starts the
    reason. *)
Definition startsPath (msg : string) : bool :=
  match msg with
  | String.String c _ =>
      bool_decide (c = " "%char) || bool_decide (c = "["%char)
      || bool_decide (c = "."%char) || bool_decide (c = "("%char)
  | EmptyString => false
  end.

Definition pathOrNil (err : error) : bool :=
  match err with Some msg => startsPath msg | None => true end.

(** Case on every [reflect] call and test of a run that returns. *)
Ltac returned H :=
  repeat first
    [ progress cbn [must mbind result_bind wrap fmap option_fmap option_map] in H
    | match type of H with
      | Done _ = Done _ => fail 1
      | Panic = Done _ => discriminate H
      | OutOfFuel = Done _ => discriminate H
      | context [must ?o] => destruct o eqn:?
      | context [isNaN64 ?v] => destruct (isNaN64 v) as [[]| |] eqn:?
      | context [if ?b then _ else _] => destruct b eqn:?
      | context [match ?p with (_, _) => _ end] => destruct p
      | context [match ?e with Some _ => _ | None => _ end] => destruct e eqn:?
      | context [@mbind result _ _ _ _ ?m] => destruct m eqn:?
      end ].

Section invariants.

Variable mapiter : list Value -> list Value.
Variable h : Heap.

Lemma extends_refl visited : extends visited visited.
Proof. intros k. by left. Qed.

Lemma extends_trans v1 v2 v3 : extends v1 v2 -> extends v2 v3 -> extends v1 v3.
Proof.
  intros H12 H23 k. destruct (H23 k) as [->|]; [apply H12|by right].
Qed.

Lemma extends_insert visited k : extends visited (<[k := true]> visited).
Proof.
  intros k'. destruct (decide (k = k')) as [->|Hne].
  - right. apply lookup_insert_eq.
  - left. by apply lookup_insert_ne.
Qed.

Lemma forEach_extends {A} (body : A -> Visited -> result (error * Visited)) xs :
  (forall x visited err visited',
     body x visited = Done (err, visited') -> extends visited visited') ->
  forall visited err visited',
    forEach body xs visited = Done (err, visited') -> extends visited visited'.
Proof.
  intros Hbody. induction xs as [|x xs IH]; intros visited err visited' H.
  - injection H as _ <-. apply extends_refl.
  - cbn [forEach mbind result_bind] in H.
    destruct (body x visited) as [[e vis1]| |] eqn:Hx; try done.
    apply Hbody in Hx. destruct e.
    + by injection H as _ <-.
    + eapply extends_trans; [done|]. by eapply IH.
Qed.

Lemma kindSwitch_extends rec :
  (forall x y visited depth err visited',
     rec x y visited depth = Done (err, visited') -> extends visited visited') ->
  forall v1 v2 visited depth err visited',
    kindSwitch mapiter h rec v1 v2 visited depth = Done (err, visited') ->
    extends visited visited'.
Proof.
  intros Hrec v1 v2 visited depth err visited' H.
  unfold kindSwitch in H.
  assert (Hdone : forall (e e' : error) (vis vis0 vis' : Visited),
            Done (e, vis0) = Done (e', vis') ->
            vis0 = vis \/ (exists x y d o, rec x y vis d = Done (o, vis0)) ->
            extends vis vis').
  { intros e e' vis vis0 vis' [= _ <-] [->|(x & y & d & o & Hr)];
      [apply extends_refl|by eapply Hrec]. }
  destruct (KindOf v1);
    try (apply leafCase_visited in H; subst; apply extends_refl);
    returned H;
    try (eapply Hdone; [exact H|]; eauto 8);
    (eapply forEach_extends; [|exact H]); clear H;
    intros x vis e vis' H; try unfold mapEntry in H; returned H;
    (eapply Hdone; [exact H|]; eauto 8).
Qed.

(** The walker never forgets a pair and never stores anything but true:
    the [visited] map a call leaves is the one it was given with some
    keys set to true. *)
Theorem visited_extends fuel : forall v1 v2 visited depth err visited',
  deepValueEqual mapiter h fuel v1 v2 visited depth = Done (err, visited') ->
  extends visited visited'.
Proof.
  induction fuel as [|fuel IH]; intros v1 v2 visited depth err visited' H; [done|].
  destruct v1 as [|t1 fa1 d1], v2 as [|t2 fa2 d2];
    try (cbn in H; injection H as _ <-; apply extends_refl).
  destruct (decide (t1 = t2)) as [<-|Hne].
  - rewrite deepValueEqual_step in H.
    destruct (cycleKey _ _) as [k|].
    + destruct (seen visited k).
      * injection H as _ <-. apply extends_refl.
      * eapply extends_trans; [apply (extends_insert _ k)|].
        eapply kindSwitch_extends; [|exact H]. apply IH.
    + eapply kindSwitch_extends; [|exact H]. apply IH.
  - rewrite type_guard in H by done. injection H as _ <-. apply extends_refl.
Qed.

Lemma leafCase_startsPath v1 v2 visited err visited' :
  leafCase h v1 v2 visited = Done (err, visited') -> pathOrNil err = true.
Proof.
  unfold leafCase. intros H. returned H; by injection H as <- _.
Qed.

Lemma forEach_startsPath {A} (body : A -> Visited -> result (error * Visited)) xs :
  (forall x visited err visited',
     body x visited = Done (err, visited') -> pathOrNil err = true) ->
  forall visited err visited',
    forEach body xs visited = Done (err, visited') -> pathOrNil err = true.
Proof.
  intros Hbody. induction xs as [|x xs IH]; intros visited err visited' H.
  - by injection H as <- _.
  - cbn [forEach mbind result_bind] in H.
    destruct (body x visited) as [[e vis1]| |] eqn:Hx; try done.
    apply Hbody in Hx. destruct e.
    + by injection H as <- _.
    + by eapply IH.
Qed.

Lemma kindSwitch_startsPath rec v1 v2 visited depth err visited' :
  kindSwitch mapiter h rec v1 v2 visited depth = Done (err, visited') ->
  pathOrNil err = true.
Proof.
  intros H. unfold kindSwitch in H.
  assert (Hdone : forall (e e' : error) (vis vis' : Visited),
            Done (e, vis) = Done (e', vis') ->
            pathOrNil e = true -> pathOrNil e' = true).
  { by intros e e' vis vis' [= <- _]. }
  assert (Hwrap : forall c prefix o,
            startsPath (String.String c prefix) = true ->
            pathOrNil (wrap (String.String c prefix) o) = true).
  { by intros c prefix [e|]. }
  destruct (KindOf v1);
    try (by apply leafCase_startsPath in H);
    returned H;
    try (eapply Hdone; [exact H|]; first [done|by apply Hwrap]);
    (eapply forEach_startsPath; [|exact H]); clear H;
    intros x vis e vis' H; try unfold mapEntry in H; returned H;
    (eapply Hdone; [exact H|]; first [done|by apply Hwrap]).
Qed.

(** Every message of the walker starts with a locator or with the space
    of the reason. *)
Lemma walker_message_shape fuel v1 v2 visited depth msg visited' :
  deepValueEqual mapiter h fuel v1 v2 visited depth = Done (Some msg, visited') ->
  startsPath msg = true.
Proof.
  intros H. destruct fuel as [|fuel]; [done|].
  destruct v1 as [|t1 fa1 d1], v2 as [|t2 fa2 d2];
    try (cbn in H; first [discriminate H|by injection H as <- _]).
  destruct (decide (t1 = t2)) as [<-|Hne].
  - rewrite deepValueEqual_step in H.
    destruct (cycleKey _ _) as [k|]; [destruct (seen visited k); [done|]|];
      by apply kindSwitch_startsPath in H.
  - rewrite type_guard in H by done. by injection H as <- _.
Qed.

(** A message of the entry point is one of the two messages about a nil
    input, or it is ["values"] followed by a path and a reason: what
    follows ["values"] starts with a locator or with the space of the
    reason. *)
Theorem entry_message_shape fuel x y msg :
  DeepEqualExplained mapiter h fuel x y = Done (Some msg) ->
  msg = "x is nil while y is not" \/ msg = "y is nil while x is not"
  \/ exists rest, msg = "values" +:+ rest /\ startsPath rest = true.
Proof.
  unfold DeepEqualExplained. intros H.
  destruct x as [|t1 fa1 d1], y as [|t2 fa2 d2];
    try (cbn in H; injection H as <-; auto; fail); [done|].
  cbn [IsValid negb orb ValueOf copy setFlag TypeOf must mbind result_bind] in H.
  case_bool_decide.
  - injection H as <-. right. right. by eexists.
  - destruct (deepValueEqual _ _ _ _ _ _ _) as [[[e|] vis]| |] eqn:Hrun; try done.
    cbn [mbind result_bind] in H. injection H as <-.
    right. right. exists e. split; [done|]. by eapply walker_message_shape.
Qed.

End invariants.

(** *** Leaves, funcs, pointers and interfaces *)

Section kinds.

Variable mapiter : list Value -> list Value.
Variable h : Heap.

(** Two leaves of one type, neither a [Float64] NaN, are equal exactly
    when [%v] prints the same text for both; otherwise the message gives
    both texts.  The text is what the [Format], [Error] or [String]
    method of the type prints when the type has one, and the plain value
    otherwise. *)
Theorem leaf_equal_iff_same_text fuel t fa1 fa2 s1 s2
    (x := ValueOf (Val t fa1 (DScalar s1))) (y := ValueOf (Val t fa2 (DScalar s2))) :
  isNaN64Scalar s1 = false -> isNaN64Scalar s2 = false ->
  DeepEqualExplained mapiter h (S fuel) (Val t fa1 (DScalar s1))
    (Val t fa2 (DScalar s2))
  = Done (if bool_decide (fmt.text h x = fmt.text h y) then None
          else Errorf ("values are not equal, where in x is " +:+ fmt.text h x
                       +:+ " but in y is " +:+ fmt.text h y))
  /\ fmt.text h x = match methods h t with
                    | Some method => method s1
                    | None => fmt.printValue s1
                    end.
Proof.
  intros Hn1 Hn2. subst x y. split.
  - unfold DeepEqualExplained.
    cbn [IsValid negb orb ValueOf copy setFlag TypeOf must mbind result_bind].
    rewrite bool_decide_ne_refl.
    rewrite deepValueEqual_scalar, kindSwitch_scalar, leafCase_scalar, Hn1, Hn2.
    case_bool_decide; by rewrite ?bool_decide_eq_true_2, ?bool_decide_eq_false_2 by auto.
  - unfold fmt.text, fmt.verb_v, fmt.handleMethods. cbn.
    by destruct (methods h t).
Qed.

(** Two funcs of one type are equal only when both are nil: a func that
    is not nil differs from every func, itself included. *)
Theorem func_equal_iff_nil fuel t fa1 fa2 p1 p2 :
  DeepEqualExplained mapiter h (S fuel) (Val t fa1 (DFunc p1)) (Val t fa2 (DFunc p2))
  = Done (if (p1 =? 0) && (p2 =? 0) then None
          else Errorf "values has different func").
Proof.
  unfold DeepEqualExplained.
  cbn [IsValid negb orb ValueOf copy setFlag TypeOf must mbind result_bind].
  rewrite bool_decide_ne_refl, deepValueEqual_step.
  cbn [cycleKey]. unfold kindSwitch.
  cbn [KindOf IsNil must mbind result_bind].
  by destruct (_ && _).
Qed.

(** Two pointers of one type: the same pointer is equal to itself
    whatever the heap holds there; a nil pointer against one that is not
    nil is reported behind the locator [(Ptr)] as invalid on its side;
    two different pointers are compared by what they point to, and a
    message from there gets [(Ptr)] in front. *)
Theorem pointer_comparison fuel t fa1 fa2 p1 p2
    (ptr1 := Val t fa1 (DPtr p1)) (ptr2 := Val t fa2 (DPtr p2)) :
  (p1 = p2 -> DeepEqualExplained mapiter h (S fuel) ptr1 ptr2 = Done None)
  /\ (forall c2, p1 = 0 -> p2 ≠ 0 -> cells h !! p2 = Some c2 -> IsValid c2 = true ->
        DeepEqualExplained mapiter h (S (S fuel)) ptr1 ptr2
        = Done (Errorf "values(Ptr) in x is invalid but in y is not"))
  /\ (forall c1, p1 ≠ 0 -> p2 = 0 -> cells h !! p1 = Some c1 -> IsValid c1 = true ->
        DeepEqualExplained mapiter h (S (S fuel)) ptr1 ptr2
        = Done (Errorf "values(Ptr) in y is invalid but in x is not"))
  /\ (forall c1 c2 err visited',
        p1 ≠ p2 -> p1 ≠ 0 -> p2 ≠ 0 ->
        cells h !! p1 = Some c1 -> cells h !! p2 = Some c2 ->
        deepValueEqual mapiter h fuel (at_addr p1 c1) (at_addr p2 c2) ∅ 1
        = Done (err, visited') ->
        DeepEqualExplained mapiter h (S fuel) ptr1 ptr2
        = Done (wrap "values(Ptr)" err)).
Proof.
  subst ptr1 ptr2.
  assert (Hentry :
    DeepEqualExplained mapiter h (S fuel) (Val t fa1 (DPtr p1)) (Val t fa2 (DPtr p2))
    = '(err, visited) ← kindSwitch mapiter h (deepValueEqual mapiter h fuel)
                          (Val t plain (DPtr p1)) (Val t plain (DPtr p2)) ∅ 0;
      match err with
      | Some e => Done (Errorf ("values" +:+ e))
      | None => Done None
      end).
  { unfold DeepEqualExplained.
    cbn [IsValid negb orb ValueOf copy setFlag TypeOf must mbind result_bind].
    by rewrite bool_decide_ne_refl, deepValueEqual_step. }
  assert (Hentry' :
    DeepEqualExplained mapiter h (S (S fuel)) (Val t fa1 (DPtr p1)) (Val t fa2 (DPtr p2))
    = '(err, visited) ← kindSwitch mapiter h (deepValueEqual mapiter h (S fuel))
                          (Val t plain (DPtr p1)) (Val t plain (DPtr p2)) ∅ 0;
      match err with
      | Some e => Done (Errorf ("values" +:+ e))
      | None => Done None
      end).
  { unfold DeepEqualExplained.
    cbn [IsValid negb orb ValueOf copy setFlag TypeOf must mbind result_bind].
    by rewrite bool_decide_ne_refl, deepValueEqual_step. }
  repeat split.
  - intros <-. rewrite Hentry. unfold kindSwitch.
    cbn [KindOf Pointer must mbind result_bind]. by rewrite Z.eqb_refl.
  - intros c2 -> Hp2 Hc2 Hv. rewrite Hentry'. unfold kindSwitch.
    cbn [KindOf Pointer Elem must mbind result_bind].
    rewrite (proj2 (Z.eqb_neq 0 p2)) by done.
    rewrite (proj2 (Z.eqb_neq p2 0)) by done.
    rewrite Hc2. destruct c2 as [|t2 f2 d2]; [done|].
    by cbn.
  - intros c1 Hp1 -> Hc1 Hv. rewrite Hentry'. unfold kindSwitch.
    cbn [KindOf Pointer Elem must mbind result_bind].
    rewrite (proj2 (Z.eqb_neq p1 0)) by done.
    rewrite Hc1. destruct c1 as [|t1 f1 d1]; [done|].
    by cbn.
  - intros c1 c2 err visited' Hne Hp1 Hp2 Hc1 Hc2 Hrun. rewrite Hentry.
    unfold kindSwitch. cbn [KindOf Pointer Elem must mbind result_bind].
    rewrite (proj2 (Z.eqb_neq p1 p2)), (proj2 (Z.eqb_neq p1 0)),
            (proj2 (Z.eqb_neq p2 0)) by done.
    rewrite Hc1, Hc2.
    cbn [fmap option_fmap option_map must mbind result_bind].
    change (target (Val t plain (DPtr p1)) p1 c1) with (at_addr p1 c1).
    change (target (Val t plain (DPtr p2)) p2 c2) with (at_addr p2 c2).
    change (0 + 1) with 1. rewrite Hrun. cbn [mbind result_bind].
    by destruct err.
Qed.

(** Two interface values of one interface type: both nil is equal;
    exactly one nil is reported as such; and when both hold a value and
    the types of what they hold differ, the mismatch is found on
    unwrapping and reported behind [(Interface)] with both type names. *)
Theorem interface_comparison fuel t fa1 fa2 e1 e2 visited depth
    (i1 := Val t fa1 (DIface e1)) (i2 := Val t fa2 (DIface e2)) :
  (IsValid e1 = false -> IsValid e2 = false ->
     deepValueEqual mapiter h (S fuel) i1 i2 visited depth = Done (None, visited))
  /\ (IsValid e1 ≠ IsValid e2 ->
      deepValueEqual mapiter h (S fuel) i1 i2 visited depth
      = Done (Errorf " do not have the same interface", visited))
  /\ (forall t1 t2, TypeOf e1 = Some t1 -> TypeOf e2 = Some t2 -> t1 ≠ t2 ->
        deepValueEqual mapiter h (S (S fuel)) i1 i2 visited depth
        = Done (Errorf ("(Interface) has different types, where in x is "
                        +:+ Name t1 +:+ " but in y is " +:+ Name t2), visited)).
Proof.
  subst i1 i2.
  assert (Hkey : cycleKey (Val t fa1 (DIface e1)) (Val t fa2 (DIface e2)) = None).
  { by apply cycleKey_not_hard. }
  repeat split.
  - intros H1 H2. rewrite deepValueEqual_step, Hkey. unfold kindSwitch.
    cbn [KindOf IsNil must mbind result_bind]. by rewrite H1, H2.
  - intros Hne. rewrite deepValueEqual_step, Hkey. unfold kindSwitch.
    cbn [KindOf IsNil must mbind result_bind].
    by destruct (IsValid e1), (IsValid e2).
  - intros t1 t2 H1 H2 Hne. rewrite deepValueEqual_step, Hkey. unfold kindSwitch.
    cbn [KindOf IsNil Elem must mbind result_bind].
    destruct e1 as [|t1' f1 d1], e2 as [|t2' f2 d2]; try done.
    injection H1 as ->. injection H2 as ->.
    cbn [IsValid negb orb copy setFlag must mbind result_bind].
    by rewrite type_guard.
Qed.

(** After a call of the entry point that finds two values equal, both
    are nil or both have the same type. *)
Theorem equal_same_type fuel x y :
  DeepEqualExplained mapiter h fuel x y = Done None ->
  TypeOf x = TypeOf y.
Proof.
  unfold DeepEqualExplained. intros H.
  destruct x as [|t1 fa1 d1], y as [|t2 fa2 d2]; try done.
  cbn [IsValid negb orb ValueOf copy setFlag TypeOf must mbind result_bind] in H.
  case_bool_decide as Ht; [done|].
  cbn [TypeOf]. f_equal. by destruct (decide (t1 = t2)).
Qed.

End kinds.

(** *** Slices and the keys of maps *)

Section containers.

Variable mapiter : list Value -> list Value.
Variable h : Heap.

(** A nil slice and a slice that is not nil are not equal, whatever their
    lengths: a nil slice against an empty one is reported as nil on its
    side, not as equal and not as a difference of length. *)
Theorem nil_slice_asymmetry fuel t fa1 fa2 p1 p2 n1 n2 :
  (p1 =? 0) ≠ (p2 =? 0) ->
  DeepEqualExplained mapiter h (S fuel) (Val t fa1 (DSlice p1 n1))
    (Val t fa2 (DSlice p2 n2))
  = Done (Errorf (if p1 =? 0 then "values in x is nil but in y is not"
                  else "values in y is nil but in x is not")).
Proof.
  intros Hnil.
  rewrite (DeepEqualExplained_of_switch mapiter h fuel t fa1 _ fa2 _
             (Errorf (if p1 =? 0 then " in x is nil but in y is not"
                      else " in y is nil but in x is not"))).
  - by destruct (p1 =? 0).
  - cbn [copy setFlag]. rewrite switch_slice.
    + by destruct (p1 =? 0), (p2 =? 0).
    + left. by destruct (p1 =? 0), (p2 =? 0).
Qed.

(** The first key the runtime hands out decides when it is missing: two
    maps of one type, of the same length and not nil, at different
    addresses.  When the first key of [x] is not found in [x] itself (a
    key that is not equal to itself: a NaN) the message says that the key
    is invalid in [x]; when it is found in [x] and not in [y], that it is
    invalid in [y].  No value of the maps is compared. *)
Theorem map_first_key_missing fuel t fa1 fa2 p1 p2 tab1 tab2 kt kfa ks rest
    (m1 := Val t fa1 (DMap p1)) (m2 := Val t fa2 (DMap p2))
    (k := Val kt kfa (DScalar ks)) :
  p1 ≠ 0 -> p2 ≠ 0 -> p1 ≠ p2 ->
  tables h !! p1 = Some tab1 -> tables h !! p2 = Some tab2 ->
  length tab1 = length tab2 ->
  mapiter (keyValue plain <$> tab1) = k :: rest ->
  (lookupKey ks tab1 = Zero ->
     DeepEqualExplained mapiter h (S fuel) m1 m2
     = Done (Errorf ("values[" +:+ fmt.text h k +:+ "] is invalid in x")))
  /\ (lookupKey ks tab1 ≠ Zero -> lookupKey ks tab2 = Zero ->
      DeepEqualExplained mapiter h (S fuel) m1 m2
      = Done (Errorf ("values[" +:+ fmt.text h k +:+ "] is invalid in y"))).
Proof.
  intros Hp1 Hp2 Hne Ht1 Ht2 Hlen Hkeys. subst m1 m2 k.
  assert (Hsw : forall err,
    (if negb (IsValid (lookupKey ks tab1))
     then Errorf ("[" +:+ fmt.text h (Val kt kfa (DScalar ks)) +:+ "] is invalid in x")
     else Errorf ("[" +:+ fmt.text h (Val kt kfa (DScalar ks)) +:+ "] is invalid in y"))
    = err ->
    negb (IsValid (lookupKey ks tab1)) || negb (IsValid (lookupKey ks tab2)) = true ->
    kindSwitch mapiter h (deepValueEqual mapiter h fuel)
      (Val t plain (DMap p1)) (Val t plain (DMap p2)) ∅ 0 = Done (err, ∅)).
  { intros err Herr Hmiss. unfold kindSwitch.
    cbn [KindOf IsNil Len Pointer MapKeys must mbind result_bind].
    rewrite (proj2 (Z.eqb_neq p1 0)), (proj2 (Z.eqb_neq p2 0)) by done.
    rewrite Ht1, Ht2.
    cbn [eqb negb fmap option_fmap option_map must mbind result_bind].
    rewrite Hlen, Nat.eqb_refl. cbn [negb].
    rewrite (proj2 (Z.eqb_neq p1 p2)) by done.
    rewrite Hkeys. unfold mapEntry.
    cbn [forEach MapIndex Sprint must mbind result_bind].
    rewrite (proj2 (Z.eqb_neq p1 0)), (proj2 (Z.eqb_neq p2 0)) by done.
    rewrite Ht1, Ht2.
    cbn [fmap option_fmap option_map must mbind result_bind].
    rewrite !IsValid_setFlag.
    destruct (negb (IsValid (lookupKey ks tab1))) eqn:Hx.
    - cbn [mbind result_bind]. by rewrite <- Herr.
    - cbn [orb] in Hmiss. rewrite Hmiss. cbn [mbind result_bind].
      by rewrite <- Herr. }
  split.
  - intros Hx.
    rewrite (DeepEqualExplained_of_switch mapiter h fuel t fa1 _ fa2 _
               (Errorf ("[" +:+ fmt.text h (Val kt kfa (DScalar ks))
                        +:+ "] is invalid in x"))); [done|].
    cbn [copy setFlag]. apply Hsw; by rewrite Hx.
  - intros Hx Hy.
    rewrite (DeepEqualExplained_of_switch mapiter h fuel t fa1 _ fa2 _
               (Errorf ("[" +:+ fmt.text h (Val kt kfa (DScalar ks))
                        +:+ "] is invalid in y"))); [done|].
    cbn [copy setFlag]. apply Hsw.
    + by destruct (lookupKey ks tab1).
    + rewrite Hy. by destruct (lookupKey ks tab1).
Qed.

End containers.

(** *** The first divergence in an array and in a struct *)

Section first_divergence.

Variable mapiter : list Value -> list Value.
Variable h : Heap.

Lemma forEach_first_error {A} (body : A -> Visited -> result (error * Visited))
    xs1 x xs2 e :
  (forall y, In y xs1 ->
     forall visited, exists visited', body y visited = Done (None, visited')) ->
  (forall visited, exists visited', body x visited = Done (Some e, visited')) ->
  forall visited, exists visited',
    forEach body (xs1 ++ x :: xs2)%list visited = Done (Some e, visited').
Proof.
  intros Hpre Hx. induction xs1 as [|y xs1 IH]; intros visited.
  - destruct (Hx visited) as [vis' Hrun].
    cbn [app forEach mbind result_bind]. rewrite Hrun. by eexists.
  - destruct (Hpre y (or_introl eq_refl) visited) as [vis1 Hy].
    cbn [app forEach mbind result_bind]. rewrite Hy.
    apply IH. intros z Hz. apply Hpre. by right.
Qed.

Lemma seq_split i n : seq 0 (i + S n) = (seq 0 i ++ i :: seq (S i) n)%list.
Proof. by rewrite seq_app. Qed.

(** The parts before the first divergence: the same on both sides up to
    their flags, as [g] sets them, and equal to themselves. *)
Lemma equal_prefix (g : Value -> Value) fuel (pre1 pre2 : list Value) j p1
    visited depth :
  (forall v, selfEqual h (g v) = selfEqual h v) ->
  (forall v, nesting (g v) = nesting v) ->
  g <$> pre1 = g <$> pre2 ->
  forallb (selfEqual h) pre1 = true ->
  (list_max (map nesting pre1) < fuel)%nat ->
  pre1 !! j = Some p1 ->
  exists p2 visited',
    pre2 !! j = Some p2
    /\ deepValueEqual mapiter h fuel (g p1) (g p2) visited depth
       = Done (None, visited').
Proof.
  intros Hgself Hgnest Hsame Hself Hfuel Hj.
  assert (Hc : (g <$> pre2) !! j = Some (g p1)).
  { by rewrite <- Hsame, list_lookup_fmap, Hj. }
  rewrite list_lookup_fmap in Hc.
  destruct (pre2 !! j) as [p2|] eqn:Hp2; [|done].
  injection Hc as Hc. exists p2. rewrite Hc.
  destruct (deepValueEqual_refl mapiter h fuel (g p1) visited depth) as [vis' Hrun].
  - rewrite Hgself. by eapply forallb_lookup.
  - rewrite Hgnest. apply nesting_elem in Hj. lia.
  - eauto.
Qed.

(** Two arrays that agree up to index [i] and whose elements at [i]
    diverge with the message [e]: the entry point reports [[i]] followed
    by [e].  The elements before [i] are the same on both sides and equal
    to themselves; the elements after [i] are not looked at. *)
Theorem array_first_divergence fuel t fa1 fa2 pre1 pre2 x1 x2 post1 post2 e :
  copy <$> pre1 = copy <$> pre2 ->
  forallb (selfEqual h) pre1 = true ->
  (list_max (map nesting pre1) < fuel)%nat ->
  (forall visited depth, exists visited',
     deepValueEqual mapiter h fuel (copy x1) (copy x2) visited depth
     = Done (Some e, visited')) ->
  DeepEqualExplained mapiter h (S fuel) (Val t fa1 (DArray (pre1 ++ x1 :: post1)%list))
    (Val t fa2 (DArray (pre2 ++ x2 :: post2)%list))
  = Done (Errorf ("values" +:+ ("[" +:+ pretty (length pre1) +:+ "]") +:+ e)).
Proof.
  intros Hsame Hself Hfuel Hx.
  assert (Hlen : length pre1 = length pre2).
  { by rewrite <- (length_fmap copy pre1), Hsame, length_fmap. }
  unfold DeepEqualExplained.
  cbn [IsValid negb orb ValueOf copy setFlag TypeOf must mbind result_bind].
  rewrite bool_decide_ne_refl, deepValueEqual_step.
  cbn [cycleKey flagAddr plain]. unfold kindSwitch.
  cbn [KindOf Len must mbind result_bind].
  rewrite length_app. cbn [length]. rewrite seq_split.
  match goal with
  | |- context [forEach ?body ?xs ?vis] =>
      destruct (forEach_first_error body (seq 0 (length pre1)) (length pre1)
                  (seq (S (length pre1)) (length post1))
                  (("[" +:+ pretty (length pre1) +:+ "]") +:+ e)) with vis
        as [visited' Hloop]
  end.
  - intros j Hj visited. apply in_seq in Hj.
    destruct (lookup_lt_is_Some_2 pre1 j) as [p1 Hp1]; [lia|].
    destruct (equal_prefix copy fuel pre1 pre2 j p1 visited (0 + 1))
      as (p2 & vis' & Hp2 & Hrun);
      try done; [apply selfEqual_copy|apply nesting_copy|].
    cbn [Index].
    rewrite (lookup_app_l_Some _ _ _ _ Hp1), (lookup_app_l_Some _ _ _ _ Hp2).
    cbn [fmap option_fmap option_map must mbind result_bind].
    change (part (Val t plain (DArray (pre1 ++ x1 :: post1)%list)) p1) with (copy p1).
    change (part (Val t plain (DArray (pre2 ++ x2 :: post2)%list)) p2) with (copy p2).
    rewrite Hrun. by eexists.
  - intros visited. cbn [Index].
    rewrite list_lookup_middle by done.
    rewrite list_lookup_middle by done.
    cbn [fmap option_fmap option_map must mbind result_bind].
    change (part (Val t plain (DArray (pre1 ++ x1 :: post1)%list)) x1) with (copy x1).
    change (part (Val t plain (DArray (pre2 ++ x2 :: post2)%list)) x2) with (copy x2).
    destruct (Hx visited (0 + 1)) as [vis' Hrun]. rewrite Hrun.
    by eexists.
  - by rewrite Hloop.
Qed.

(** The same for two structs: the message is the name of the first field
    that diverges, as [.Name], followed by the message from the field.
    A field of a struct that is not addressable is not addressable, and
    it is read-only when it is not exported. *)
Theorem struct_first_divergence fuel t fa1 fa2 pre1 pre2 name name2 x1 x2
    post1 post2 e :
  unaddressed <$> pre1.*2 = unaddressed <$> pre2.*2 ->
  forallb (selfEqual h) pre1.*2 = true ->
  (list_max (map nesting pre1.*2) < fuel)%nat ->
  (forall visited depth, exists visited',
     deepValueEqual mapiter h fuel (unaddressed x1) (unaddressed x2) visited depth
     = Done (Some e, visited')) ->
  DeepEqualExplained mapiter h (S fuel)
    (Val t fa1 (DStruct (pre1 ++ (name, x1) :: post1)%list))
    (Val t fa2 (DStruct (pre2 ++ (name2, x2) :: post2)%list))
  = Done (Errorf ("values" +:+ ("." +:+ name) +:+ e)).
Proof.
  intros Hsame Hself Hfuel Hx.
  assert (Hlen : length pre1 = length pre2).
  { by rewrite <- (length_fmap snd pre1), <- (length_fmap unaddressed pre1.*2), Hsame,
               !length_fmap. }
  unfold DeepEqualExplained.
  cbn [IsValid negb orb ValueOf copy setFlag TypeOf must mbind result_bind].
  rewrite bool_decide_ne_refl, deepValueEqual_step.
  cbn [cycleKey flagAddr plain]. unfold kindSwitch.
  cbn [KindOf NumField must mbind result_bind].
  rewrite length_app. cbn [length]. rewrite seq_split.
  match goal with
  | |- context [forEach ?body ?xs ?vis] =>
      destruct (forEach_first_error body (seq 0 (length pre1)) (length pre1)
                  (seq (S (length pre1)) (length post1))
                  (("." +:+ name) +:+ e)) with vis
        as [visited' Hloop]
  end.
  - intros j Hj visited. apply in_seq in Hj.
    destruct (lookup_lt_is_Some_2 pre1 j) as [f1 Hf1]; [lia|].
    destruct (equal_prefix unaddressed fuel pre1.*2 pre2.*2 j f1.2 visited (0 + 1))
      as (p2 & vis' & Hp2 & Hrun);
      try done; [intros; apply selfEqual_setFlag|intros; apply nesting_setFlag| |].
    { by rewrite list_lookup_fmap, Hf1. }
    rewrite list_lookup_fmap in Hp2.
    destruct (pre2 !! j) as [f2|] eqn:Hf2; [|done]. injection Hp2 as <-.
    cbn [Field].
    rewrite (lookup_app_l_Some _ _ _ _ Hf1), (lookup_app_l_Some _ _ _ _ Hf2).
    cbn [fmap option_fmap option_map must mbind result_bind].
    change (fieldPart (Val t plain (DStruct (pre1 ++ (name, x1) :: post1)%list)) f1.2)
      with (unaddressed f1.2).
    change (fieldPart (Val t plain (DStruct (pre2 ++ (name2, x2) :: post2)%list)) f2.2)
      with (unaddressed f2.2).
    rewrite Hrun. by eexists.
  - intros visited. cbn [Field FieldName].
    rewrite list_lookup_middle by done.
    rewrite list_lookup_middle by done.
    cbn [fmap option_fmap option_map must mbind result_bind snd fst].
    change (fieldPart (Val t plain (DStruct (pre1 ++ (name, x1) :: post1)%list)) x1)
      with (unaddressed x1).
    change (fieldPart (Val t plain (DStruct (pre2 ++ (name2, x2) :: post2)%list)) x2)
      with (unaddressed x2).
    destruct (Hx visited (0 + 1)) as [vis' Hrun]. rewrite Hrun.
    cbn [mbind result_bind]. by eexists.
  - by rewrite Hloop.
Qed.

End first_divergence.

(** *** The depth argument, a pair met again, and values held in place *)

(** A value made of scalars, funcs, arrays, structs and interfaces only:
    no pointer, slice or map in it. *)
Fixpoint inPlace (v : Value) : bool :=
  match v with
  | Zero => true
  | Val _ _ d =>
      match d with
      | DScalar _ | DFunc _ => true
      | DArray elems => forallb inPlace elems
      | DStruct fields => forallb (fun f => inPlace f.2) fields
      | DIface e => inPlace e
      | DSlice _ _ | DPtr _ | DMap _ => false
      end
  end.

Section recursion.

Variable mapiter : list Value -> list Value.
Variable h : Heap.

Lemma kindSwitch_depth rec v1 v2 visited depth depth' :
  (forall x y visited d d', rec x y visited d = rec x y visited d') ->
  kindSwitch mapiter h rec v1 v2 visited depth
  = kindSwitch mapiter h rec v1 v2 visited depth'.
Proof.
  intros Hrec. unfold kindSwitch.
  destruct (KindOf v1); try reflexivity;
    repeat first
      [ reflexivity
      | apply bind_ext; intros
      | apply forEach_ext; intros; unfold mapEntry
      | rewrite (Hrec _ _ _ (depth + 1) (depth' + 1))
      | match goal with
        | |- (if ?c then _ else _) = (if ?c then _ else _) => destruct c
        end ].
Qed.

(** The [depth] argument of the walker is passed down and never read: no
    result depends on it, and no depth is too deep. *)
Theorem depth_is_unused fuel : forall v1 v2 visited depth depth',
  deepValueEqual mapiter h fuel v1 v2 visited depth
  = deepValueEqual mapiter h fuel v1 v2 visited depth'.
Proof.
  induction fuel as [|fuel IH]; intros v1 v2 visited depth depth'; [done|].
  destruct v1 as [|t1 fa1 d1];
    [by destruct v2|destruct v2 as [|t2 fa2 d2]; [reflexivity|]].
  destruct (decide (t1 = t2)) as [<-|Hne]; [|by rewrite !type_guard].
  rewrite !deepValueEqual_step.
  destruct (cycleKey _ _) as [k|]; [destruct (seen visited k); [done|]|];
    by apply kindSwitch_depth.
Qed.

(** A pair that the walker has been called on is remembered in either
    order: once a call on an addressable pair of a [hard] kind has
    returned, with or without an error, a later call on the same two
    values the other way round returns nil at once, with any [visited]
    that remembers what the first call left. *)
Theorem pair_met_again fuel fuel' t ro1 em1 addr1 d1 ro2 em2 addr2 d2 visited depth
    err visited' visited'' depth'
    (v1 := Val t (mkFlag ro1 em1 (Some addr1)) d1)
    (v2 := Val t (mkFlag ro2 em2 (Some addr2)) d2) :
  hard (KindOf v1) = true -> KindOf v2 = KindOf v1 ->
  deepValueEqual mapiter h (S fuel) v1 v2 visited depth = Done (err, visited') ->
  grows visited' visited'' ->
  deepValueEqual mapiter h (S fuel') v2 v1 visited'' depth' = Done (None, visited'').
Proof.
  subst v1 v2. intros Hhard Hkind Hrun Hgrows.
  assert (Hseen : seen visited' (visitKey addr1 addr2 t) = true).
  { rewrite deepValueEqual_step in Hrun. unfold cycleKey in Hrun.
    cbn [flagAddr] in Hrun. rewrite Hhard in Hrun.
    destruct (seen visited (visitKey addr1 addr2 t)) eqn:Hs.
    - by injection Hrun as _ <-.
    - eapply kindSwitch_grows in Hrun; [|apply deepValueEqual_grows].
      apply Hrun, seen_insert. }
  rewrite deepValueEqual_step. unfold cycleKey. cbn [flagAddr].
  rewrite Hkind, Hhard, (visitKey_sym addr2 addr1).
  by rewrite (Hgrows _ Hseen).
Qed.

Lemma forEach_returns {A} (body : A -> Visited -> result (error * Visited)) xs :
  (forall x, In x xs -> forall visited, body x visited ≠ OutOfFuel) ->
  forall visited, forEach body xs visited ≠ OutOfFuel.
Proof.
  induction xs as [|x xs IH]; intros Hbody visited; [done|].
  cbn [forEach mbind result_bind].
  destruct (body x visited) as [[[e|] vis]| |] eqn:Hx; try done.
  - apply IH. intros y Hy. apply Hbody. by right.
  - by apply (Hbody x (or_introl eq_refl)) in Hx.
Qed.

Lemma inPlace_setFlag fl v : inPlace (setFlag fl v) = inPlace v.
Proof. by destruct v. Qed.

Lemma leafCase_returns v1 v2 visited : leafCase h v1 v2 visited ≠ OutOfFuel.
Proof.
  unfold leafCase, isNaN64.
  repeat first
    [ progress cbn [must mbind result_bind]
    | match goal with
      | |- context [must ?o] => destruct o
      | |- context [if ?b then _ else _] => destruct b
      end ]; done.
Qed.

(** The walker returns, or panics inside [reflect], on every pair whose
    first value holds no pointer, slice or map: its recursion follows the
    first value and goes no deeper than arrays, structs and interfaces
    are nested in it. *)
Theorem in_place_returns fuel : forall v1 v2 visited depth,
  inPlace v1 = true -> (nesting v1 < fuel)%nat ->
  deepValueEqual mapiter h fuel v1 v2 visited depth ≠ OutOfFuel.
Proof.
  induction fuel as [|fuel IH]; intros v1 v2 visited depth Hin Hfuel; [lia|].
  destruct v1 as [|t1 fa1 d1]; [by destruct v2|].
  destruct v2 as [|t2 fa2 d2]; [done|].
  destruct (decide (t1 = t2)) as [<-|Hne]; [|by rewrite type_guard].
  rewrite deepValueEqual_step.
  assert (Hsw : forall visited,
    kindSwitch mapiter h (deepValueEqual mapiter h fuel) (Val t1 fa1 d1)
      (Val t1 fa2 d2) visited depth ≠ OutOfFuel).
  { clear visited. intros visited.
    destruct d1 as [s|elems|p n|fields|e|p|p|p]; try done.
    - rewrite kindSwitch_scalar. apply leafCase_returns.
    - unfold kindSwitch. cbn [KindOf Len must mbind result_bind].
      apply forEach_returns. intros i Hi vis. apply in_seq in Hi.
      destruct (lookup_lt_is_Some_2 elems i) as [c Hc]; [lia|].
      destruct (Index h (Val t1 fa2 d2) i) as [x2|] eqn:Hx2;
        cbn [Index]; rewrite Hc;
        cbn [fmap option_fmap option_map must mbind result_bind]; [|done].
      destruct (deepValueEqual mapiter h fuel (part (Val t1 fa1 (DArray elems)) c)
                  x2 vis (depth + 1)) as [[e0 vis0]| |] eqn:Hrun; [by cbn|done|].
      apply IH in Hrun; [done| |].
      + unfold part. rewrite inPlace_setFlag. cbn in Hin. by eapply forallb_lookup.
      + rewrite nesting_part. apply nesting_elem in Hc. cbn in Hfuel. lia.
    - unfold kindSwitch. cbn [KindOf NumField must mbind result_bind].
      apply forEach_returns. intros i Hi vis. apply in_seq in Hi.
      destruct (lookup_lt_is_Some_2 fields i) as [f Hf]; [lia|].
      destruct (Field (Val t1 fa2 d2) i) as [x2|] eqn:Hx2;
        cbn [Field FieldName]; rewrite Hf;
        cbn [fmap option_fmap option_map must mbind result_bind]; [|done].
      destruct (deepValueEqual mapiter h fuel
                  (fieldPart (Val t1 fa1 (DStruct fields)) f.2)
                  x2 vis (depth + 1)) as [[[e0|] vis0]| |] eqn:Hrun;
        [by cbn|by cbn|done|].
      apply IH in Hrun; [done| |].
      + unfold fieldPart. rewrite inPlace_setFlag. cbn in Hin.
        by apply (forallb_lookup (fun f => inPlace f.2) fields i f).
      + rewrite nesting_fieldPart. apply nesting_field in Hf. cbn in Hfuel. lia.
    - unfold kindSwitch.
      destruct (IsNil (Val t1 fa2 d2)) as [nil2|] eqn:Hn2;
        cbn [KindOf IsNil must mbind result_bind]; [|done].
      destruct (negb (IsValid e) || nil2); [by destruct (eqb _ _)|].
      destruct (Elem h (Val t1 fa2 d2)) as [e2|] eqn:He2;
        cbn [Elem must mbind result_bind]; [|done].
      destruct (deepValueEqual mapiter h fuel (setFlag (mkFlag (ro fa1) false None) e)
                  e2 visited (depth + 1))
        as [[e0 vis0]| |] eqn:Hrun; [by cbn|done|].
      apply IH in Hrun; [done| |].
      + cbn in Hin. by rewrite inPlace_setFlag.
      + rewrite nesting_setFlag. cbn in Hfuel. lia.
    - unfold kindSwitch.
      destruct (IsNil (Val t1 fa2 d2)) as [nil2|] eqn:Hn2;
        cbn [KindOf IsNil must mbind result_bind]; [|done].
      by destruct (_ && _). }
  destruct (cycleKey _ _) as [k|]; [destruct (seen visited k); [done|]|];
    apply Hsw.
Qed.

End recursion.

(** *** The elements of two slices *)

(** The same scalar of the same type on both sides, not a [Float64]
    NaN. *)
Definition sameScalar (v w : Value) : bool :=
  match v, w with
  | Val t1 _ (DScalar s1), Val t2 _ (DScalar s2) =>
      bool_decide (t1 = t2) && bool_decide (s1 = s2) && negb (isNaN64Scalar s1)
  | _, _ => false
  end.

(** The first [n] elements of two backing arrays are the same scalars. *)
Definition sameScalars (n : nat) (l1 l2 : list Value) : Prop :=
  forall i, (i < n)%nat ->
    exists x y, l1 !! i = Some x /\ l2 !! i = Some y /\ sameScalar x y = true.

Section slices.

Variable mapiter : list Value -> list Value.
Variable h : Heap.

Lemma sameScalar_equal fuel x y fl1 fl2 visited depth :
  sameScalar x y = true -> ro fl1 = ro fl2 ->
  deepValueEqual mapiter h (S fuel) (setFlag fl1 x) (setFlag fl2 y) visited depth
  = Done (None, visited).
Proof.
  unfold sameScalar. intros Hsame Hro.
  destruct x as [|t1 f1 [s1| | | | | | |]], y as [|t2 f2 [s2| | | | | | |]]; try done.
  apply andb_true_iff in Hsame as [Hsame Hnan].
  apply andb_true_iff in Hsame as [Ht Hs].
  apply bool_decide_eq_true_1 in Ht as <-.
  apply bool_decide_eq_true_1 in Hs as <-.
  apply negb_true_iff in Hnan. cbn [setFlag].
  rewrite deepValueEqual_scalar, kindSwitch_scalar, leafCase_scalar.
  by rewrite Hnan, (text_same_ro h t1 fl1 fl2), bool_decide_ne_refl.
Qed.

(** Two slices of one type and one length over different backing arrays
    are compared element by element, through the heap: they are equal
    when the elements are the same scalars, and when the elements before
    index [i] are the same and the two scalars at [i] print different
    texts, the message is [[i]] followed by the two texts. *)
Theorem slice_elementwise fuel t fa1 fa2 p1 p2 n l1 l2
    (s1 := Val t fa1 (DSlice p1 n)) (s2 := Val t fa2 (DSlice p2 n)) :
  p1 ≠ 0 -> p2 ≠ 0 -> p1 ≠ p2 ->
  arrays h !! p1 = Some l1 -> arrays h !! p2 = Some l2 ->
  (sameScalars n l1 l2 ->
     DeepEqualExplained mapiter h (S (S fuel)) s1 s2 = Done None)
  /\ (forall i tx fx fy sx sy
             (x := Val tx plain (DScalar sx)) (y := Val tx plain (DScalar sy)),
        (i < n)%nat -> sameScalars i l1 l2 ->
        l1 !! i = Some (Val tx fx (DScalar sx)) ->
        l2 !! i = Some (Val tx fy (DScalar sy)) ->
        isNaN64Scalar sx = false -> isNaN64Scalar sy = false ->
        fmt.text h x ≠ fmt.text h y ->
        DeepEqualExplained mapiter h (S (S fuel)) s1 s2
        = Done (Errorf ("values" +:+ ("[" +:+ pretty i +:+ "]")
                        +:+ " are not equal, where in x is " +:+ fmt.text h x
                        +:+ " but in y is " +:+ fmt.text h y))).
Proof.
  subst s1 s2. intros Hp1 Hp2 Hne Hl1 Hl2.
  assert (Hentry : forall err,
    (exists visited',
       forEach (fun i visited =>
          x1 ← must (Index h (Val t plain (DSlice p1 n)) i);
          x2 ← must (Index h (Val t plain (DSlice p2 n)) i);
          '(err, visited) ← deepValueEqual mapiter h (S fuel) x1 x2 visited (0 + 1);
          Done (wrap ("[" +:+ pretty i +:+ "]") err, visited))
         (seq 0 n) ∅ = Done (err, visited')) ->
    DeepEqualExplained mapiter h (S (S fuel)) (Val t fa1 (DSlice p1 n))
      (Val t fa2 (DSlice p2 n)) = Done (wrap "values" err)).
  { intros err [visited' Hloop]. unfold DeepEqualExplained.
    cbn [IsValid negb orb ValueOf copy setFlag TypeOf must mbind result_bind].
    rewrite bool_decide_ne_refl, deepValueEqual_step.
    cbn [cycleKey flagAddr plain]. unfold kindSwitch.
    cbn [KindOf IsNil Len Pointer must mbind result_bind].
    rewrite (proj2 (Z.eqb_neq p1 0)), (proj2 (Z.eqb_neq p2 0)) by done.
    rewrite (proj2 (Z.eqb_neq p1 p2)) by done.
    cbn [eqb negb]. rewrite Nat.eqb_refl. cbn [negb].
    rewrite Hloop. by destruct err. }
  assert (Hsame : forall i j visited,
    sameScalars i l1 l2 -> (j < i)%nat -> (i <= n)%nat ->
    (x1 ← must (Index h (Val t plain (DSlice p1 n)) j);
     x2 ← must (Index h (Val t plain (DSlice p2 n)) j);
     '(err, visited) ← deepValueEqual mapiter h (S fuel) x1 x2 visited (0 + 1);
     Done (wrap ("[" +:+ pretty j +:+ "]") err, visited))
    = Done (None, visited)).
  { intros i j visited Hsame Hj Hi.
    destruct (Hsame j Hj) as (x & y & Hx & Hy & Hxy).
    cbn [Index]. rewrite (proj2 (Nat.ltb_lt j n)) by lia.
    rewrite Hl1, Hl2. cbn [mbind option_bind]. rewrite Hx, Hy.
    cbn [fmap option_fmap option_map must mbind result_bind]. unfold slicePart.
    by rewrite sameScalar_equal. }
  split.
  - intros Hall. rewrite (Hentry None); [done|]. exists ∅.
    apply forEach_nil_same. intros j Hj. apply in_seq in Hj.
    by apply (Hsame n); [|lia|].
  - intros i tx fx fy sx sy x y Hi Hpre Hx Hy Hnx Hny Htext. subst x y.
    rewrite (Hentry (Some (("[" +:+ pretty i +:+ "]")
                           +:+ " are not equal, where in x is "
                           +:+ fmt.text h (Val tx plain (DScalar sx))
                           +:+ " but in y is "
                           +:+ fmt.text h (Val tx plain (DScalar sy))))); [done|].
    replace n with (i + S (n - S i))%nat by lia.
    rewrite seq_split.
    replace (i + S (n - S i))%nat with n by lia.
    apply forEach_first_error.
    + intros j Hj visited. apply in_seq in Hj. eexists.
      by apply (Hsame i); [|lia|lia].
    + intros visited. eexists.
      cbn [Index]. rewrite (proj2 (Nat.ltb_lt i n)) by lia.
      rewrite Hl1, Hl2. cbn [mbind option_bind]. rewrite Hx, Hy.
      cbn [fmap option_fmap option_map must mbind result_bind].
      unfold slicePart. cbn [setFlag flagOf plain ro flagStickyRO flagEmbedRO orb].
      rewrite deepValueEqual_scalar, kindSwitch_scalar, leafCase_scalar, Hnx, Hny.
      rewrite (text_same_ro h tx _ plain sx), (text_same_ro h tx _ plain sy) by done.
      by rewrite bool_decide_eq_true_2.
Qed.

End slices.

(** *** Fuel *)

(** What [r] comes to, unless the fuel ran out, [r'] comes to as well. *)
Definition atLeast {A} (r r' : result A) : Prop :=
  r ≠ OutOfFuel -> r' = r.

Section fuel.

Variable mapiter : list Value -> list Value.
Variable h : Heap.

Lemma atLeast_refl {A} (r : result A) : atLeast r r.
Proof. by intros _. Qed.

Lemma bind_atLeast {A B} (m m' : result A) (f f' : A -> result B) :
  atLeast m m' -> (forall x, atLeast (f x) (f' x)) ->
  atLeast (m ≫= f) (m' ≫= f').
Proof.
  intros Hm Hf Hne. destruct m as [x| |]; try done.
  - rewrite Hm by done. by apply Hf.
  - by rewrite Hm.
Qed.

Lemma forEach_atLeast {A} (body body' : A -> Visited -> result (error * Visited)) xs :
  (forall x visited, atLeast (body x visited) (body' x visited)) ->
  forall visited, atLeast (forEach body xs visited) (forEach body' xs visited).
Proof.
  intros Hbody. induction xs as [|x xs IH]; intros visited; [apply atLeast_refl|].
  cbn [forEach]. apply bind_atLeast; [apply Hbody|].
  intros [[e|] vis]; [apply atLeast_refl|apply IH].
Qed.

Lemma kindSwitch_atLeast rec rec' v1 v2 visited depth :
  (forall x y visited depth,
     atLeast (rec x y visited depth) (rec' x y visited depth)) ->
  atLeast (kindSwitch mapiter h rec v1 v2 visited depth)
          (kindSwitch mapiter h rec' v1 v2 visited depth).
Proof.
  intros Hrec. unfold kindSwitch.
  destruct (KindOf v1); try apply atLeast_refl;
    repeat first
      [ apply atLeast_refl
      | apply Hrec
      | apply forEach_atLeast; intros; unfold mapEntry
      | apply bind_atLeast; [|intros]
      | match goal with
        | |- atLeast (if ?c then _ else _) (if ?c then _ else _) => destruct c
        | |- atLeast (match ?e with Some _ => _ | None => _ end)
                     (match ?e with Some _ => _ | None => _ end) => destruct e
        | |- atLeast (let (_, _) := ?p in _) (let (_, _) := ?p in _) => destruct p
        end ].
Qed.

(** A call that returns or panics with some fuel does the same with any
    more fuel: what a call comes to does not depend on the bound the
    model puts on the recursion. *)
Lemma enough_fuel fuel fuel' v1 v2 visited depth :
  (fuel <= fuel')%nat ->
  deepValueEqual mapiter h fuel v1 v2 visited depth ≠ OutOfFuel ->
  deepValueEqual mapiter h fuel' v1 v2 visited depth
  = deepValueEqual mapiter h fuel v1 v2 visited depth.
Proof.
  intros Hle. revert fuel' Hle v1 v2 visited depth.
  induction fuel as [|fuel IH]; intros fuel' Hle v1 v2 visited depth H; [done|].
  destruct fuel' as [|fuel']; [lia|].
  destruct v1 as [|t1 fa1 d1]; [by destruct v2|].
  destruct v2 as [|t2 fa2 d2]; [done|].
  destruct (decide (t1 = t2)) as [<-|Hne];
    [|by rewrite !type_guard].
  rewrite !deepValueEqual_step in *.
  assert (Hsw : forall visited,
    atLeast (kindSwitch mapiter h (deepValueEqual mapiter h fuel)
               (Val t1 fa1 d1) (Val t1 fa2 d2) visited depth)
            (kindSwitch mapiter h (deepValueEqual mapiter h fuel')
               (Val t1 fa1 d1) (Val t1 fa2 d2) visited depth)).
  { intros vis. apply kindSwitch_atLeast. intros x y vis' d Hx.
    apply IH; [lia|done]. }
  destruct (cycleKey _ _) as [k|]; [destruct (seen visited k); [done|]|];
    by apply Hsw.
Qed.

End fuel.

(** *** Termination on cyclic values *)

Section termination.

Variable mapiter : list Value -> list Value.
Variable h : Heap.

Lemma unseen_grows keys visited visited' :
  grows visited visited' -> (unseen keys visited' <= unseen keys visited)%nat.
Proof.
  intros Hgrows. unfold unseen.
  induction keys as [|k keys IH]; cbn [List.filter length]; [lia|].
  destruct (seen visited k) eqn:Hk.
  - rewrite (Hgrows _ Hk). cbn [negb]. lia.
  - cbn [negb length]. destruct (seen visited' k); cbn [negb length]; lia.
Qed.

Lemma unseen_length keys visited : (unseen keys visited <= length keys)%nat.
Proof.
  unfold unseen. induction keys as [|k l IH]; cbn [List.filter length]; [lia|].
  destruct (negb _); cbn [length]; lia.
Qed.

Lemma unseen_insert keys visited k :
  In k keys -> seen visited k = false ->
  (unseen keys (<[k := true]> visited) < unseen keys visited)%nat.
Proof.
  intros Hin Hk.
  induction keys as [|k' keys IH]; [done|].
  pose proof (unseen_grows keys visited (<[k := true]> visited)
                (grows_insert _ _)) as Hle.
  unfold unseen in *. cbn [List.filter].
  destruct Hin as [->|Hin].
  - rewrite seen_insert, Hk. cbn [negb length]. lia.
  - specialize (IH Hin). destruct (seen visited k') eqn:Hk'.
    + rewrite (grows_insert visited k k' Hk'). cbn [negb]. lia.
    + cbn [negb length].
      destruct (seen (<[k := true]> visited) k'); cbn [negb length]; lia.
Qed.

(** A run that comes to an end and, when it returns, leaves a set of
    remembered pairs of which [Q] holds. *)
Definition endsIn (Q : Visited -> Prop) (r : result (error * Visited)) : Prop :=
  r ≠ OutOfFuel /\ forall e visited', r = Done (e, visited') -> Q visited'.

Lemma endsIn_done (Q : Visited -> Prop) e visited :
  Q visited -> endsIn Q (Done (e, visited)).
Proof. intros HQ. split; [done|]. by intros e' vis' [= _ <-]. Qed.

Lemma endsIn_panic (Q : Visited -> Prop) : endsIn Q Panic.
Proof. by split. Qed.

Lemma endsIn_must {A} (Q : Visited -> Prop) (o : option A) k :
  (forall x, o = Some x -> endsIn Q (k x)) -> endsIn Q (must o ≫= k).
Proof. destruct o as [x|]; intros Hk; [by apply Hk|apply endsIn_panic]. Qed.

Lemma forEach_endsIn {A} (Q : Visited -> Prop)
    (body : A -> Visited -> result (error * Visited)) xs :
  (forall x, In x xs -> forall visited, Q visited -> endsIn Q (body x visited)) ->
  forall visited, Q visited -> endsIn Q (forEach body xs visited).
Proof.
  induction xs as [|x xs IH]; intros Hbody visited HQ; [by apply endsIn_done|].
  destruct (Hbody x (or_introl eq_refl) visited HQ) as [Hx HQ'].
  cbn [forEach mbind result_bind].
  destruct (body x visited) as [[[e|] vis]| |].
  - apply endsIn_done. by eapply HQ'.
  - apply IH; [|by eapply HQ'].
    intros y Hy. apply Hbody. by right.
  - apply endsIn_panic.
  - done.
Qed.

(** The [switch] comes to an end when the calls on the children do. *)
Lemma kindSwitch_endsIn rec (Q : Visited -> Prop) t fa1 d1 fa2 d2
    (v1 := Val t fa1 d1) (v2 := Val t fa2 d2) :
  (forall x y visited depth,
     In (x, y) (children mapiter h v1 v2) -> Q visited ->
     endsIn Q (rec x y visited depth)) ->
  forall visited depth,
    Q visited -> endsIn Q (kindSwitch mapiter h rec v1 v2 visited depth).
Proof.
  intros Hcalls visited depth HQ.
  assert (Hcall : forall x y vis d (k : error * Visited -> result (error * Visited)),
    In (x, y) (children mapiter h v1 v2) -> Q vis ->
    (forall e vis', Q vis' -> endsIn Q (k (e, vis'))) ->
    endsIn Q (rec x y vis d ≫= k)).
  { intros x y vis d k Hin HQv Hk.
    destruct (Hcalls x y vis d Hin HQv) as [Hne Hkeep].
    destruct (rec x y vis d) as [[e vis']| |] eqn:Hr; cbn [mbind result_bind].
    - apply Hk. by eapply Hkeep.
    - apply endsIn_panic.
    - done. }
  clear Hcalls. unfold children in Hcall. subst v1 v2.
  cbn [IsValid negb orb TypeOf] in Hcall.
  rewrite bool_decide_ne_refl in Hcall.
  unfold kindSwitch.
  destruct (KindOf (Val t fa1 d1)) eqn:HK;
    try (split; [apply leafCase_returns|];
         intros e vis' Hr; apply leafCase_visited in Hr; by subst).
  - (* Array *)
    apply endsIn_must. intros n Hn. rewrite Hn in Hcall.
    cbn [fmap option_fmap option_map default] in Hcall.
    apply forEach_endsIn; [|done]. intros i Hi vis HQv.
    apply endsIn_must. intros x1 Hx1. apply endsIn_must. intros x2 Hx2.
    apply Hcall; [|done|].
    + apply list_elem_of_In, list_elem_of_omap. exists i.
      split; [by apply list_elem_of_In|]. by rewrite Hx1, Hx2.
    + intros e vis' HQ'. by apply endsIn_done.
  - (* Func *)
    apply endsIn_must. intros nil1 _. apply endsIn_must. intros nil2 _.
    destruct (nil1 && nil2); by apply endsIn_done.
  - (* Interface *)
    apply endsIn_must. intros nil1 Hn1. apply endsIn_must. intros nil2 Hn2.
    rewrite Hn1, Hn2 in Hcall.
    destruct nil1, nil2; cbn [orb eqb]; try by apply endsIn_done.
    apply endsIn_must. intros e1 He1. apply endsIn_must. intros e2 He2.
    rewrite He1, He2 in Hcall.
    apply Hcall; [by left|done|].
    intros e vis' HQ'. by apply endsIn_done.
  - (* Map *)
    apply endsIn_must. intros nil1 Hn1. apply endsIn_must. intros nil2 Hn2.
    rewrite Hn1, Hn2 in Hcall.
    destruct (negb (eqb nil1 nil2)) eqn:Hnil;
      [destruct nil1; by apply endsIn_done|].
    apply endsIn_must. intros len1 Hl1. apply endsIn_must. intros len2 Hl2.
    rewrite Hl1, Hl2 in Hcall.
    destruct (negb (len1 =? len2)%nat) eqn:Hlen; [by apply endsIn_done|].
    apply endsIn_must. intros p1 Hp1. apply endsIn_must. intros p2 Hp2.
    rewrite Hp1, Hp2 in Hcall.
    destruct (p1 =? p2) eqn:Hp; [by apply endsIn_done|].
    apply endsIn_must. intros keys Hkeys. rewrite Hkeys in Hcall.
    cbn [orb] in Hcall.
    apply forEach_endsIn; [|done]. intros k Hk vis HQv. unfold mapEntry.
    apply endsIn_must. intros val1 Hv1. apply endsIn_must. intros val2 Hv2.
    destruct (negb (IsValid val1)) eqn:Hval1.
    { apply endsIn_must. intros key _. by apply endsIn_done. }
    destruct (negb (IsValid val2)) eqn:Hval2.
    { apply endsIn_must. intros key _. by apply endsIn_done. }
    apply Hcall; [|done|].
    + apply list_elem_of_In, list_elem_of_omap. exists k.
      split; [by apply list_elem_of_In|]. rewrite Hv1, Hv2. cbn.
      apply negb_false_iff in Hval1, Hval2. by rewrite Hval1, Hval2.
    + intros [e|] vis' HQ'; [|by apply endsIn_done].
      apply endsIn_must. intros key _. by apply endsIn_done.
  - (* Ptr *)
    apply endsIn_must. intros p1 Hp1. apply endsIn_must. intros p2 Hp2.
    rewrite Hp1, Hp2 in Hcall.
    destruct (p1 =? p2) eqn:Hp; [by apply endsIn_done|].
    apply endsIn_must. intros e1 He1. apply endsIn_must. intros e2 He2.
    rewrite He1, He2 in Hcall.
    apply Hcall; [by left|done|].
    intros e vis' HQ'. by apply endsIn_done.
  - (* Slice *)
    apply endsIn_must. intros nil1 Hn1. apply endsIn_must. intros nil2 Hn2.
    rewrite Hn1, Hn2 in Hcall.
    destruct (negb (eqb nil1 nil2)) eqn:Hnil;
      [destruct nil1; by apply endsIn_done|].
    apply endsIn_must. intros len1 Hl1. apply endsIn_must. intros len2 Hl2.
    rewrite Hl1, Hl2 in Hcall.
    destruct (negb (len1 =? len2)%nat) eqn:Hlen; [by apply endsIn_done|].
    apply endsIn_must. intros p1 Hp1. apply endsIn_must. intros p2 Hp2.
    rewrite Hp1, Hp2 in Hcall.
    destruct (p1 =? p2) eqn:Hp; [by apply endsIn_done|].
    cbn [orb] in Hcall.
    apply forEach_endsIn; [|done]. intros i Hi vis HQv.
    apply endsIn_must. intros x1 Hx1. apply endsIn_must. intros x2 Hx2.
    apply Hcall; [|done|].
    + apply list_elem_of_In, list_elem_of_omap. exists i.
      split; [by apply list_elem_of_In|]. by rewrite Hx1, Hx2.
    + intros e vis' HQ'. by apply endsIn_done.
  - (* Struct *)
    apply endsIn_must. intros n Hn. rewrite Hn in Hcall.
    cbn [fmap option_fmap option_map default] in Hcall.
    apply forEach_endsIn; [|done]. intros i Hi vis HQv.
    apply endsIn_must. intros f1 Hf1. apply endsIn_must. intros f2 Hf2.
    apply Hcall; [|done|].
    + apply list_elem_of_In, list_elem_of_omap. exists i.
      split; [by apply list_elem_of_In|]. by rewrite Hf1, Hf2.
    + intros [e|] vis' HQ'; [|by apply endsIn_done].
      apply endsIn_must. intros name _. by apply endsIn_done.
Qed.

Section certified.

Variables (reach : Value -> Value -> Prop) (keys : list visit).
Variables (rank : Value -> Value -> nat) (bound : nat).
Hypothesis cert : certificate mapiter h reach keys rank bound.

(** The fuel that is enough for a call on a pair of [reach]: every key
    that is still to be remembered pays for a descent through pairs
    without a key. *)
Definition enough (visited : Visited) (v1 v2 : Value) : nat :=
  match cycleKey v1 v2 with
  | Some _ => unseen keys visited * (bound + 2) + 1
  | None => unseen keys visited * (bound + 2) + rank v1 v2 + 2
  end.

Lemma enough_child visited v1 v2 visited' x y fuel :
  reach x y ->
  match cycleKey v1 v2 with
  | Some _ => (unseen keys visited' < unseen keys visited)%nat
  | None => (unseen keys visited' <= unseen keys visited)%nat
           /\ (cycleKey x y = None -> (rank x y < rank v1 v2)%nat)
  end ->
  (enough visited v1 v2 <= S fuel)%nat ->
  (enough visited' x y <= fuel)%nat.
Proof.
  intros Hreach Hless Hfuel. unfold enough in *.
  pose proof (rank_bound _ _ _ _ _ _ cert x y Hreach) as Hrank.
  destruct (cycleKey v1 v2) as [k|].
  - destruct (cycleKey x y); nia.
  - destruct Hless as [Hle Hdown].
    destruct (cycleKey x y); [nia|].
    specialize (Hdown eq_refl). nia.
Qed.

Lemma walker_ends fuel : forall v1 v2 visited depth,
  reach v1 v2 -> (enough visited v1 v2 <= fuel)%nat ->
  deepValueEqual mapiter h fuel v1 v2 visited depth ≠ OutOfFuel.
Proof.
  induction fuel as [|fuel IH]; intros v1 v2 visited depth Hreach Hfuel.
  { unfold enough in Hfuel. destruct (cycleKey v1 v2); lia. }
  destruct v1 as [|t1 fa1 d1]; [by destruct v2|].
  destruct v2 as [|t2 fa2 d2]; [done|].
  destruct (decide (t1 = t2)) as [<-|Hne]; [|by rewrite type_guard].
  rewrite deepValueEqual_step.
  destruct (cycleKey _ _) as [k|] eqn:Hkey.
  - destruct (seen visited k) eqn:Hseen; [done|].
    apply (kindSwitch_endsIn _
             (fun vis => (unseen keys vis < unseen keys visited)%nat)).
    + intros x y vis d Hin Hvis.
      assert (Hxy : reach x y) by by eapply (reach_children _ _ _ _ _ _ cert).
      split.
      * apply IH; [done|].
        eapply (enough_child visited _ _ vis); [done| |exact Hfuel].
        by rewrite Hkey.
      * intros e vis' Hrun. apply deepValueEqual_grows in Hrun.
        pose proof (unseen_grows keys _ _ Hrun) as Hle.
        exact (Nat.le_lt_trans _ _ _ Hle Hvis).
    + apply unseen_insert; [|done].
      by eapply (reach_keys _ _ _ _ _ _ cert).
  - apply (kindSwitch_endsIn _
             (fun vis => (unseen keys vis <= unseen keys visited)%nat)); [|done].
    intros x y vis d Hin Hvis.
    assert (Hxy : reach x y) by by eapply (reach_children _ _ _ _ _ _ cert).
    split.
    + apply IH; [done|].
      eapply (enough_child visited _ _ vis); [done| |exact Hfuel].
      rewrite Hkey. split; [done|].
      by apply (rank_down _ _ _ _ _ _ cert).
    + intros e vis' Hrun. apply deepValueEqual_grows in Hrun.
      pose proof (unseen_grows keys _ _ Hrun) as Hle.
      exact (Nat.le_trans _ _ _ Hle Hvis).
Qed.

(** The depth of the recursion on a pair of [reach] is bounded by the
    number of keys and the bound on the rank. *)
Lemma walker_depth fuel v1 v2 visited depth :
  reach v1 v2 -> (S (length keys) * (bound + 2) <= fuel)%nat ->
  deepValueEqual mapiter h fuel v1 v2 visited depth ≠ OutOfFuel.
Proof.
  intros Hreach Hfuel. apply walker_ends; [done|].
  pose proof (unseen_length keys visited).
  pose proof (rank_bound _ _ _ _ _ _ cert v1 v2 Hreach).
  unfold enough. destruct (cycleKey v1 v2); nia.
Qed.

Lemma entry_terminates x y :
  reach (ValueOf x) (ValueOf y) ->
  terminates (fun fuel => DeepEqualExplained mapiter h fuel x y)
  /\ forall fuel, (S (length keys) * (bound + 2) <= fuel)%nat ->
       DeepEqualExplained mapiter h fuel x y ≠ OutOfFuel.
Proof.
  intros Hreach.
  set (n := (S (length keys) * (bound + 2))%nat).
  assert (Hrun : forall fuel, (n <= fuel)%nat ->
    DeepEqualExplained mapiter h fuel x y = DeepEqualExplained mapiter h n x y
    /\ DeepEqualExplained mapiter h fuel x y ≠ OutOfFuel).
  { intros fuel Hfuel. unfold DeepEqualExplained.
    destruct (negb (IsValid x) || negb (IsValid y)).
    { destruct (_ && _); [done|]. by destruct (negb _). }
    destruct (TypeOf (ValueOf x)) as [t1|]; [|done].
    destruct (TypeOf (ValueOf y)) as [t2|]; [|done].
    cbn [must mbind result_bind]. case_bool_decide; [done|].
    pose proof (walker_depth n _ _ ∅ 0 Hreach (le_n _)) as Hn.
    rewrite (enough_fuel mapiter h n fuel) by done.
    split; [done|].
    destruct (deepValueEqual mapiter h n (ValueOf x) (ValueOf y) ∅ 0)
      as [[[e|] vis]| |]; done. }
  split.
  - exists n, (DeepEqualExplained mapiter h n x y). split.
    + by apply (Hrun n).
    + intros fuel Hfuel. by apply Hrun.
  - intros fuel Hfuel. by apply Hrun.
Qed.

End certified.

End termination.

(** C2, amended: the walker comes to an end on every pair of inputs for
    which there is a [certificate], that is, on which every way round a
    cycle goes through a pair of addressable values of kind Array, Map,
    Slice or Struct, which the cycle detector remembers: the entry point
    comes to the same result, or panic, with every amount of fuel from
    a bound on, and the recursion is no deeper than the number of keys
    and the bound on the rank allow.  And a record that refers back to
    itself through a pointer field, compared with a record that does the
    same and has the same scalars in its other fields, is equal, whether
    the two are given by pointers or by value. *)
Theorem cycles_terminate mapiter h :
  (forall reach keys rank bound x y,
     certificate mapiter h reach keys rank bound ->
     reach (ValueOf x) (ValueOf y) ->
     terminates (fun fuel => DeepEqualExplained mapiter h fuel x y)
     /\ forall fuel, (S (length keys) * (bound + 2) <= fuel)%nat ->
          DeepEqualExplained mapiter h fuel x y ≠ OutOfFuel)
  /\ (forall tN a b fields1 fields2 fa fb tP fa1 fa2,
        cells h !! a = Some (Val tN fa (DStruct fields1)) ->
        cells h !! b = Some (Val tN fb (DStruct fields2)) ->
        a ≠ 0 -> b ≠ 0 ->
        fieldsAgree a b fields1 fields2 = true ->
        returns (fun fuel =>
                   DeepEqualExplained mapiter h fuel (Val tP fa1 (DPtr a))
                     (Val tP fa2 (DPtr b))) None
        /\ returns (fun fuel =>
                      DeepEqualExplained mapiter h fuel (Val tN fa1 (DStruct fields1))
                        (Val tN fa2 (DStruct fields2))) None).
Proof.
  split.
  - intros reach keys rank bound x y Hcert Hreach.
    by apply (entry_terminates mapiter h reach keys rank bound).
  - intros tN a b fields1 fields2 fa fb tP fa1 fa2 Ha Hb Hna Hnb Hagree.
    by apply (self_referential_record mapiter h tN a b fields1 fields2 fa fb).
Qed.

(** *** The order of the keys of a map *)

Section map_keys.

Variable h : Heap.

Lemma forEach_firstError (body : Value -> Visited -> result (error * Visited))
    out keys :
  (forall k visited, In k keys ->
     exists visited', body k visited = Done (out k, visited')) ->
  forall visited, exists visited',
    forEach body keys visited = Done (firstError out keys, visited').
Proof.
  induction keys as [|k keys IH]; intros Hbody visited; [by eexists|].
  destruct (Hbody k visited (or_introl eq_refl)) as [vis Hk].
  cbn [forEach firstError mbind result_bind]. rewrite Hk.
  destruct (out k); [by eexists|].
  apply IH. intros k' vis' Hin. apply Hbody. by right.
Qed.

Lemma firstError_Some out keys e :
  firstError out keys = Some e -> exists k, In k keys /\ out k = Some e.
Proof.
  induction keys as [|k keys IH]; [done|]. cbn [firstError].
  destruct (out k) as [e'|] eqn:Hk.
  - intros [= <-]. exists k. by split; [left|].
  - intros H. destruct (IH H) as (k' & Hin & Hk'). exists k'. by split; [right|].
Qed.

Lemma firstError_None out keys k :
  firstError out keys = None -> In k keys -> out k = None.
Proof.
  induction keys as [|k' keys IH]; [done|]. cbn [firstError].
  destruct (out k') eqn:Hk'; [done|].
  intros H [->|Hin]; [done|by apply IH].
Qed.

(** When all the keys that have an error have the same one, the order of
    the keys does not matter. *)
Lemma firstError_perm out l1 l2 :
  Permutation l1 l2 ->
  (forall k k', In k l1 -> In k' l1 -> out k ≠ None -> out k' ≠ None ->
     out k = out k') ->
  firstError out l1 = firstError out l2.
Proof.
  intros Hperm Hsame.
  destruct (firstError out l1) as [e1|] eqn:H1,
           (firstError out l2) as [e2|] eqn:H2; [| | |done].
  - apply firstError_Some in H1 as (k1 & Hin1 & Hk1).
    apply firstError_Some in H2 as (k2 & Hin2 & Hk2).
    apply (Permutation_in _ (Permutation_sym Hperm)) in Hin2.
    rewrite <- Hk1, <- Hk2. apply Hsame; try done; congruence.
  - apply firstError_Some in H1 as (k1 & Hin1 & Hk1).
    apply (Permutation_in _ Hperm) in Hin1.
    by rewrite (firstError_None _ _ _ H2 Hin1) in Hk1.
  - apply firstError_Some in H2 as (k2 & Hin2 & Hk2).
    apply (Permutation_in _ (Permutation_sym Hperm)) in Hin2.
    by rewrite (firstError_None _ _ _ H1 Hin2) in Hk2.
Qed.

Lemma keyFirst_permutes k : permutes (keyFirst k).
Proof.
  intros l. unfold keyFirst. induction l as [|v l IH]; [done|].
  cbn [List.filter]. destruct (isKey k v); cbn [negb app].
  - by constructor.
  - etrans; [symmetry; apply Permutation_middle|]. by constructor.
Qed.

Lemma isKey_eq k v : isKey k v = true -> v = k.
Proof.
  destruct k as [|t1 f1 [s1| | | | | | |]], v as [|t2 f2 [s2| | | | | | |]]; try done.
  cbn. intros [[Ht Hf]%andb_true_iff Hs]%andb_true_iff.
  apply bool_decide_eq_true_1 in Ht, Hf, Hs. by subst.
Qed.

Lemma isKey_refl t fl s : isKey (Val t fl (DScalar s)) (Val t fl (DScalar s)) = true.
Proof. cbn. by rewrite !bool_decide_eq_true_2. Qed.

(** The key handed out first decides, when it has an error. *)
Lemma firstError_keyFirst out t fl s keys e (k := Val t fl (DScalar s)) :
  In k keys -> out k = Some e -> firstError out (keyFirst k keys) = Some e.
Proof.
  intros Hin Hout. unfold keyFirst.
  destruct (List.filter (isKey k) keys) as [|k0 rest] eqn:Hf.
  - assert (Hk : In k (List.filter (isKey k) keys)).
    { apply filter_In. split; [done|apply isKey_refl]. }
    by rewrite Hf in Hk.
  - assert (Hk0 : In k0 (List.filter (isKey k) keys)) by (rewrite Hf; by left).
    apply filter_In in Hk0 as [_ ->%isKey_eq].
    cbn [app firstError]. by rewrite Hout.
Qed.

Lemma key_is_scalar fl (tab : list (rtype * scalar * Value)) k :
  In k (keyValue fl <$> tab) -> exists t fl' s, k = Val t fl' (DScalar s).
Proof.
  intros Hin. apply list_elem_of_In, list_elem_of_fmap in Hin as (e & -> & _).
  unfold keyValue. by do 3 eexists.
Qed.

(** C8, amended: two maps of one type, not nil, of one length and at
    different addresses, whose entries are compared with the same result
    whatever pairs are remembered and whatever the order of the keys of
    the maps below is: [out k] is what the body of the loop returns for
    the key [k].  Then a run returns the error of the first key, in the
    order the run is handed the keys in, that has one.  When no two keys
    have different errors, in particular when at most one entry differs,
    every order gives the same result; and when two keys have different
    errors there are two orders whose runs return different messages. *)
Theorem key_order fuel t fa1 fa2 p1 p2 tab1 tab2 (out : Value -> error)
    (x := Val t fa1 (DMap p1)) (y := Val t fa2 (DMap p2))
    (keys := keyValue plain <$> tab1) :
  p1 ≠ 0 -> p2 ≠ 0 -> p1 ≠ p2 ->
  tables h !! p1 = Some tab1 -> tables h !! p2 = Some tab2 ->
  length tab1 = length tab2 ->
  (forall iter k visited, permutes iter -> In k keys ->
     exists visited',
       mapEntry h (deepValueEqual iter h fuel) (ValueOf x) (ValueOf y) 0 k visited
       = Done (out k, visited')) ->
  (forall iter, permutes iter ->
     DeepEqualExplained iter h (S fuel) x y
     = Done (wrap "values" (firstError out (iter keys))))
  /\ ((forall k k', In k keys -> In k' keys ->
         out k ≠ None -> out k' ≠ None -> out k = out k') ->
      forall iter1 iter2, permutes iter1 -> permutes iter2 ->
        DeepEqualExplained iter1 h (S fuel) x y
        = DeepEqualExplained iter2 h (S fuel) x y)
  /\ (forall k k' e e', In k keys -> In k' keys ->
        out k = Some e -> out k' = Some e' -> e ≠ e' ->
        exists iter1 iter2,
          permutes iter1 /\ permutes iter2
          /\ DeepEqualExplained iter1 h (S fuel) x y = Done (Errorf ("values" +:+ e))
          /\ DeepEqualExplained iter2 h (S fuel) x y = Done (Errorf ("values" +:+ e'))).
Proof.
  intros Hp1 Hp2 Hne Ht1 Ht2 Hlen Hentries.
  assert (Hrun : forall iter, permutes iter ->
    DeepEqualExplained iter h (S fuel) x y
    = Done (wrap "values" (firstError out (iter keys)))).
  { intros iter Hiter. subst x y. unfold DeepEqualExplained.
    cbn [IsValid negb orb ValueOf copy setFlag TypeOf must mbind result_bind].
    rewrite bool_decide_ne_refl, deepValueEqual_step.
    cbn [cycleKey flagAddr plain]. unfold kindSwitch.
    cbn [KindOf IsNil Len Pointer MapKeys must mbind result_bind].
    rewrite (proj2 (Z.eqb_neq p1 0)), (proj2 (Z.eqb_neq p2 0)) by done.
    rewrite Ht1, Ht2.
    cbn [eqb negb fmap option_fmap option_map must mbind result_bind].
    rewrite Hlen, Nat.eqb_refl. cbn [negb].
    rewrite (proj2 (Z.eqb_neq p1 p2)) by done.
    destruct (forEach_firstError
                (mapEntry h (deepValueEqual iter h fuel) (Val t plain (DMap p1))
                   (Val t plain (DMap p2)) 0)
                out (iter keys)) with (∅ : Visited) as [visited' Hloop].
    { intros k visited Hin. apply Hentries; [done|].
      by apply (Permutation_in _ (Hiter keys)). }
    subst keys. rewrite Hloop. cbn [mbind result_bind].
    by destruct (firstError _ _). }
  split; [exact Hrun|]. split.
  - intros Hsame iter1 iter2 H1 H2. rewrite !Hrun by done.
    do 2 f_equal. apply firstError_perm.
    + etrans; [apply H1|]. symmetry. apply H2.
    + intros k k' Hk Hk'.
      apply Hsame; by apply (Permutation_in _ (H1 keys)).
  - intros k k' e e' Hk Hk' He He' Hdiff.
    exists (keyFirst k), (keyFirst k').
    split; [apply keyFirst_permutes|]. split; [apply keyFirst_permutes|].
    rewrite !Hrun by apply keyFirst_permutes.
    destruct (key_is_scalar _ _ _ Hk) as (kt & kfl & ks & ->).
    destruct (key_is_scalar _ _ _ Hk') as (kt' & kfl' & ks' & ->).
    by rewrite (firstError_keyFirst out kt kfl ks keys e),
               (firstError_keyFirst out kt' kfl' ks' keys e').
Qed.

End map_keys.

(** *** Fields that are not exported *)

Section read_only.

Variable mapiter : list Value -> list Value.
Variable h : Heap.

(** A struct with one field, of a scalar type that has a [String]
    method.  When the field is exported, the two fields are compared by
    what the method prints for them; when it is not, by the plain
    values, since [fmt] cannot take the value out of a [reflect.Value]
    that is read-only. *)
Theorem field_text fuel t tf name s1 s2 method fa1 fa2 (unexported : bool)
    (fl := mkFlag unexported false None)
    (x := Val t fa1 (DStruct [(name, Val tf fl (DScalar s1))]))
    (y := Val t fa2 (DStruct [(name, Val tf fl (DScalar s2))]))
    (text := fun s => if unexported then fmt.printValue s else method s) :
  methods h tf = Some method ->
  isNaN64Scalar s1 = false -> isNaN64Scalar s2 = false ->
  DeepEqualExplained mapiter h (S (S fuel)) x y
  = Done (if bool_decide (text s1 = text s2) then None
          else Errorf ("values." +:+ name +:+ " are not equal, where in x is "
                       +:+ text s1 +:+ " but in y is " +:+ text s2)).
Proof.
  intros Hmethod Hn1 Hn2. subst x y fl text. unfold DeepEqualExplained.
  cbn [IsValid negb orb ValueOf copy setFlag TypeOf must mbind result_bind].
  rewrite bool_decide_ne_refl, deepValueEqual_step.
  cbn [cycleKey flagAddr plain]. unfold kindSwitch.
  cbn [KindOf NumField length seq forEach Field FieldName lookup list_lookup
       fmap option_fmap option_map fst snd must mbind result_bind].
  unfold fieldPart. cbn [setFlag].
  rewrite deepValueEqual_scalar, kindSwitch_scalar, leafCase_scalar, Hn1, Hn2.
  unfold fmt.text, fmt.verb_v, fmt.handleMethods, CanInterface, ro, partAddr.
  cbn [flagOf flagStickyRO flagEmbedRO flagAddr plain CanAddr orb].
  rewrite Hmethod.
  destruct unexported; cbn [negb orb fmap option_fmap option_map default];
    repeat case_bool_decide; done.
Qed.

End read_only.

(** ** These properties at work on examples *)

Module more_examples.
Import examples.

Definition float64 (f : float) : Value := Val tFloat64 plain (DScalar (SFloat W64 f)).

(** [[3]int{1, 2, 3}] and [[3]int{1, 5, 3}] *)
Definition tInts3 := mkType "" "[3]int".
Definition array123 : Value := Val tInts3 plain (DArray [int 1; int 2; int 3]).
Definition array153 : Value := Val tInts3 plain (DArray [int 1; int 5; int 3]).

(** [struct{A, B int}{1, 2}] and [{1, 3}] *)
Definition tAB := mkType "AB" "main.AB".
Definition ab12 : Value := Val tAB plain (DStruct [("A", int 1); ("B", int 2)]).
Definition ab13 : Value := Val tAB plain (DStruct [("A", int 1); ("B", int 3)]).

(** Two [*int], to 1 and to 2, and two slices over [{1, 2}] and [{1, 3}] *)
Definition tIntPtr := mkType "" "*int".
Definition cellHeap : Heap :=
  mkHeap (<[64 := elemAt 64 1]> (<[128 := elemAt 128 2]> ∅))
         (<[256 := [elemAt 256 1; elemAt 264 2]]>
          (<[512 := [elemAt 512 1; elemAt 520 3]]> ∅))
         ∅
    noMethods.
Definition intPtr (p : addr) : Value := Val tIntPtr plain (DPtr p).
Definition intSlice (p : addr) (n : nat) : Value := Val tInts plain (DSlice p n).

(** Two [interface{}] fields, one holding [1] and one holding ["1"] *)
Definition tAny := mkType "" "interface {}".
Definition any (v : Value) : Value := Val tAny plain (DIface v).

(** [map[float64]int{NaN: 1}] twice, and [map[string]int{"a": 1}] against
    [map[string]int{"b": 1}] *)
Definition tByFloat := mkType "" "map[float64]int".
Definition keyHeap : Heap :=
  mkHeap ∅ ∅
    (<[16 := [(tFloat64, SFloat W64 FNaN, int 1)]]>
    (<[32 := [(tFloat64, SFloat W64 FNaN, int 1)]]>
    (<[48 := [(tString, SString "a", int 1)]]>
    (<[80 := [(tString, SString "b", int 1)]]> ∅))))
    noMethods.

(** [type Unit int] with [func (Unit) String() string { return "unit" }] *)
Definition tUnit := mkType "Unit" "main.Unit".
Definition unitMethods : rtype -> option (scalar -> string) :=
  fun t => if bool_decide (t = tUnit) then Some (fun _ => "unit") else None.
Definition unitHeap : Heap := mkHeap ∅ ∅ ∅ unitMethods.
Definition unit (n : Z) : Value := Val tUnit plain (DScalar (SInt KInt n)).

(** [type Open struct { U Unit }] and [type Shut struct { u Unit }] *)
Definition tOpen := mkType "Open" "main.Open".
Definition tShut := mkType "Shut" "main.Shut".
Definition open (n : Z) : Value := Val tOpen plain (DStruct [("U", unit n)]).
Definition shut (n : Z) : Value :=
  Val tShut plain
    (DStruct [("u", Val tUnit (mkFlag true false None) (DScalar (SInt KInt n)))]).

(** [map[Unit]int{1: 1}] and [map[Unit]int{2: 1}] *)
Definition tByUnit := mkType "" "map[main.Unit]int".
Definition unitKeyHeap : Heap :=
  mkHeap ∅ ∅
    (<[16 := [(tUnit, SInt KInt 1, int 1)]]>
    (<[32 := [(tUnit, SInt KInt 2, int 1)]]> ∅))
    unitMethods.

End more_examples.

Import examples more_examples.

Lemma visited_extends_witness :
  extends ∅ (<[mkVisit 256 512 tNode := true]> ∅).
Proof.
  apply (visited_extends id nodeHeap 3 (node 256) (node 512) ∅ 0 None).
  reflexivity.
Defined.

Lemma entry_message_shape_witness :
  "values[1] are not equal, where in x is 2 but in y is 5" = "x is nil while y is not"
  \/ "values[1] are not equal, where in x is 2 but in y is 5" = "y is nil while x is not"
  \/ exists rest,
       "values[1] are not equal, where in x is 2 but in y is 5" = "values" +:+ rest
       /\ startsPath rest = true.
Proof.
  apply (entry_message_shape id emptyHeap 2 array123 array153).
  vm_compute. reflexivity.
Defined.

Lemma leaf_equal_iff_same_text_witness :
  DeepEqualExplained id emptyHeap 1 (float64 (FZero false)) (float64 (FZero true))
  = Done (Errorf "values are not equal, where in x is 0 but in y is -0")
  /\ DeepEqualExplained id unitHeap 1 (unit 1) (unit 2) = Done None.
Proof.
  split.
  - exact (proj1 (leaf_equal_iff_same_text id emptyHeap 0 tFloat64 plain plain
             (SFloat W64 (FZero false)) (SFloat W64 (FZero true)) eq_refl eq_refl)).
  - exact (proj1 (leaf_equal_iff_same_text id unitHeap 0 tUnit plain plain
             (SInt KInt 1) (SInt KInt 2) eq_refl eq_refl)).
Defined.

Lemma pointer_comparison_witness :
  DeepEqualExplained id cellHeap 2 (intPtr 64) (intPtr 128)
  = Done (Errorf "values(Ptr) are not equal, where in x is 1 but in y is 2")
  /\ DeepEqualExplained id cellHeap 2 (intPtr 0) (intPtr 128)
     = Done (Errorf "values(Ptr) in x is invalid but in y is not").
Proof.
  split.
  - refine (proj2 (proj2 (proj2 (pointer_comparison id cellHeap 1 tIntPtr plain plain
              64 128))) (elemAt 64 1) (elemAt 128 2)
              (Errorf " are not equal, where in x is 1 but in y is 2") ∅
              _ _ _ _ _ _); try reflexivity; lia.
  - refine (proj1 (proj2 (pointer_comparison id cellHeap 0 tIntPtr plain plain
              0 128)) (elemAt 128 2) _ _ _ _); try reflexivity; lia.
Defined.

Lemma interface_comparison_witness :
  deepValueEqual id emptyHeap 2 (any (int 1)) (any (str "1")) ∅ 0
  = Done (Errorf "(Interface) has different types, where in x is int but in y is string", ∅).
Proof.
  refine (proj2 (proj2 (interface_comparison id emptyHeap 0 tAny plain plain
            (int 1) (str "1") ∅ 0)) tInt tString _ _ _); try reflexivity.
  discriminate.
Defined.

Lemma equal_same_type_witness : TypeOf (int 1) = TypeOf (Val tInt (stored 64) (DScalar (SInt KInt 1))).
Proof.
  apply (equal_same_type id emptyHeap 1). reflexivity.
Defined.

Lemma nil_slice_asymmetry_witness :
  DeepEqualExplained id sliceHeap 1 (intSlice 0 0) (intSlice 64 0)
  = Done (Errorf "values in x is nil but in y is not").
Proof.
  refine (nil_slice_asymmetry id sliceHeap 0 tInts plain plain 0 64 0 0 _).
  discriminate.
Defined.

Lemma map_first_key_missing_witness :
  DeepEqualExplained id keyHeap 1 (Val tByFloat plain (DMap 16)) (Val tByFloat plain (DMap 32))
  = Done (Errorf "values[NaN] is invalid in x")
  /\ DeepEqualExplained id keyHeap 1 (dict 48) (dict 80)
     = Done (Errorf "values[a] is invalid in y")
  /\ DeepEqualExplained id unitKeyHeap 1 (Val tByUnit plain (DMap 16))
       (Val tByUnit plain (DMap 32))
     = Done (Errorf "values[unit] is invalid in y").
Proof.
  split; [|split].
  - refine (proj1 (map_first_key_missing id keyHeap 0 tByFloat plain plain 16 32
              [(tFloat64, SFloat W64 FNaN, int 1)] [(tFloat64, SFloat W64 FNaN, int 1)]
              tFloat64 plain (SFloat W64 FNaN) [] _ _ _ _ _ _ _) _);
      try reflexivity; lia.
  - refine (proj2 (map_first_key_missing id keyHeap 0 tDict plain plain 48 80
              [(tString, SString "a", int 1)] [(tString, SString "b", int 1)]
              tString plain (SString "a") [] _ _ _ _ _ _ _) _ _);
      try reflexivity; try lia. discriminate.
  - refine (proj2 (map_first_key_missing id unitKeyHeap 0 tByUnit plain plain 16 32
              [(tUnit, SInt KInt 1, int 1)] [(tUnit, SInt KInt 2, int 1)]
              tUnit plain (SInt KInt 1) [] _ _ _ _ _ _ _) _ _);
      try reflexivity; try lia. discriminate.
Defined.

Lemma array_first_divergence_witness :
  DeepEqualExplained id emptyHeap 2 array123 array153
  = Done (Errorf "values[1] are not equal, where in x is 2 but in y is 5").
Proof.
  refine (array_first_divergence id emptyHeap 1 tInts3 plain plain [int 1] [int 1]
            (int 2) (int 5) [int 3] [int 3]
            " are not equal, where in x is 2 but in y is 5" _ _ _ _);
    try reflexivity.
  - cbn. lia.
  - intros visited depth. by eexists.
Defined.

Lemma struct_first_divergence_witness :
  DeepEqualExplained id emptyHeap 2 ab12 ab13
  = Done (Errorf "values.B are not equal, where in x is 2 but in y is 3").
Proof.
  refine (struct_first_divergence id emptyHeap 1 tAB plain plain [("A", int 1)]
            [("A", int 1)] "B" "B" (int 2) (int 3) [] []
            " are not equal, where in x is 2 but in y is 3" _ _ _ _);
    try reflexivity.
  - cbn. lia.
  - intros visited depth. by eexists.
Defined.

Lemma pair_met_again_witness :
  deepValueEqual id nodeHeap 1 (node 512) (node 256)
    (<[mkVisit 256 512 tNode := true]> ∅) 7
  = Done (None, <[mkVisit 256 512 tNode := true]> ∅).
Proof.
  refine (pair_met_again id nodeHeap 2 0 tNode false false 256
            (DStruct (nodeFields 256)) false false 512
            (DStruct (nodeFields 512)) ∅ 0 None
            (<[mkVisit 256 512 tNode := true]> ∅)
            (<[mkVisit 256 512 tNode := true]> ∅) 7 _ _ _ _).
  - reflexivity.
  - reflexivity.
  - reflexivity.
  - apply grows_refl.
Defined.

Lemma in_place_returns_witness :
  deepValueEqual id emptyHeap 2 ab12 ab13 ∅ 0 ≠ OutOfFuel.
Proof.
  apply (in_place_returns id emptyHeap 2 ab12 ab13 ∅ 0); [reflexivity|cbn; lia].
Defined.

Lemma slice_elementwise_witness :
  DeepEqualExplained id cellHeap 2 (intSlice 256 1) (intSlice 512 1) = Done None
  /\ DeepEqualExplained id cellHeap 2 (intSlice 256 2) (intSlice 512 2)
     = Done (Errorf "values[1] are not equal, where in x is 2 but in y is 3").
Proof.
  assert (Hfirst : sameScalars 1 [elemAt 256 1; elemAt 264 2] [elemAt 512 1; elemAt 520 3]).
  { intros [|i] Hi; [|lia]. by do 2 eexists. }
  split.
  - refine (proj1 (slice_elementwise id cellHeap 0 tInts plain plain 256 512 1
              [elemAt 256 1; elemAt 264 2] [elemAt 512 1; elemAt 520 3] _ _ _ _ _) Hfirst);
      try reflexivity; lia.
  - refine (proj2 (slice_elementwise id cellHeap 0 tInts plain plain 256 512 2
              [elemAt 256 1; elemAt 264 2] [elemAt 512 1; elemAt 520 3] _ _ _ _ _)
              1%nat tInt (stored 264) (stored 520) (SInt KInt 2) (SInt KInt 3)
              _ Hfirst _ _ _ _ _);
      try reflexivity; try lia. discriminate.
Defined.

Lemma ring_certificate :
  certificate id ringHeap (fun x y => In (x, y) ringPairs) ringKeys (fun _ _ => 0%nat) 0.
Proof.
  split.
  - intros v1 v2 x y Hin Hchild. unfold ringPairs in Hin. cbn [In] in Hin.
    destruct Hin as [[= <- <-]|[[= <- <-]|[[= <- <-]|[[= <- <-]|[[= <- <-]|[]]]]]];
      vm_compute in Hchild; destruct Hchild as [[= <- <-]|[]]; vm_compute; tauto.
  - intros v1 v2 k Hin Hkey. unfold ringPairs in Hin. cbn [In] in Hin.
    destruct Hin as [[= <- <-]|[[= <- <-]|[[= <- <-]|[[= <- <-]|[[= <- <-]|[]]]]]];
      vm_compute in Hkey; try discriminate; injection Hkey as <-; vm_compute; tauto.
  - intros. lia.
  - intros v1 v2 x y Hin Hkey Hchild Hkey'. unfold ringPairs in Hin. cbn [In] in Hin.
    destruct Hin as [[= <- <-]|[[= <- <-]|[[= <- <-]|[[= <- <-]|[[= <- <-]|[]]]]]];
      vm_compute in Hkey; try discriminate;
      vm_compute in Hchild; destruct Hchild as [[= <- <-]|[]];
      vm_compute in Hkey'; discriminate.
Qed.

Lemma cycles_terminate_witness :
  terminates (fun fuel => DeepEqualExplained id ringHeap fuel (nodePtr 256) (nodePtr 1024))
  /\ DeepEqualExplained id ringHeap 6 (nodePtr 256) (nodePtr 1024) = Done None
  /\ returns (fun fuel => DeepEqualExplained id nodeHeap fuel (nodePtr 256) (nodePtr 512)) None
  /\ returns (fun fuel => DeepEqualExplained id nodeHeap fuel (node 256) (node 512)) None.
Proof.
  split; [|split; [reflexivity|]].
  - refine (proj1 (proj1 (cycles_terminate id ringHeap)
              (fun x y => In (x, y) ringPairs) ringKeys (fun _ _ => 0%nat) 0%nat
              (nodePtr 256) (nodePtr 1024) ring_certificate _)).
    left. reflexivity.
  - refine (proj2 (cycles_terminate id nodeHeap) tNode 256 512
              (nodeFields 256) (nodeFields 512) (stored 256) (stored 512)
              tNodePtr (stored 256) (stored 512) _ _ _ _ _).
    + reflexivity.
    + reflexivity.
    + lia.
    + lia.
    + reflexivity.
Defined.

Lemma key_order_witness :
  DeepEqualExplained id twoHeap 2 (dict 16) (dict 32)
  = DeepEqualExplained (@rev Value) twoHeap 2 (dict 16) (dict 32)
  /\ DeepEqualExplained (@rev Value) twoHeap 2 (dict 16) (dict 32)
     = Done (Errorf "values[b] are not equal, where in x is 2 but in y is 4").
Proof.
  assert (Hrev : permutes (@rev Value)).
  { intros l. apply Permutation_sym, Permutation_rev. }
  assert (Hid : permutes id).
  { intros l. apply Permutation_refl. }
  destruct (key_order twoHeap 1 tDict plain plain 16 32
              [(tString, SString "a", int 1); (tString, SString "b", int 2)]
              [(tString, SString "a", int 1); (tString, SString "b", int 4)]
              onlyB) as (Hfirst & Hsame & _).
  - lia.
  - lia.
  - lia.
  - reflexivity.
  - reflexivity.
  - reflexivity.
  - intros iter k visited _ [<-|[<-|[]]]; eexists; reflexivity.
  - split.
    + apply Hsame; [|exact Hid|exact Hrev].
      intros k k' [<-|[<-|[]]] [<-|[<-|[]]] Hk Hk'; try reflexivity;
        exfalso; (by apply Hk) || (by apply Hk').
    + exact (Hfirst (@rev Value) Hrev).
Defined.

Lemma field_text_witness :
  DeepEqualExplained id unitHeap 2 (open 1) (open 2) = Done None
  /\ DeepEqualExplained id unitHeap 2 (shut 1) (shut 2)
     = Done (Errorf "values.u are not equal, where in x is 1 but in y is 2").
Proof.
  split.
  - exact (field_text id unitHeap 0 tOpen tUnit "U" (SInt KInt 1) (SInt KInt 2)
             (fun _ => "unit") plain plain false eq_refl eq_refl eq_refl).
  - exact (field_text id unitHeap 0 tShut tUnit "u" (SInt KInt 1) (SInt KInt 2)
             (fun _ => "unit") plain plain true eq_refl eq_refl eq_refl).
Defined.
